(** * chatbotcolegio: the cached sheet service, the flow matcher and the AI path

    A shallow embedding of [src/sheets.js] (class [GoogleSheetService], the
    text normaliser [normalizeText] and the matcher [findFlowAnswer]) and of
    [src/ai-chat.js] (class [GroqService]), with the properties the
    specification states about them.

    Conventions.
    - A JavaScript string is the list of its UTF-16 code units ([jsstring]).
    - [null] and [undefined] are [None]; a value tested for truthiness is
      an [option] whose [Some] carries a truthy value.
    - The two services are module-level singletons; their fields, the
      objects they share by reference ([heap]) and the log of calls made to
      the outside world ([calls]) form the [World].  Every method is a state
      transformer over the [World], run against an [Env] that says what the
      outside world answers (the clock, the Sheets API, the chat history). *)

From Stdlib Require Import ZArith NArith QArith Lia.
From Stdlib Require Import Ascii String Decimal DecimalString.
From Stdlib Require DecimalPos DecimalN.
From stdpp Require Import base option list gmap.

Local Open Scope N_scope.

(** ** JavaScript strings *)

Abbreviation jsstring := (list N).

(** An ASCII literal as a JavaScript string. *)
Definition js (s : string) : jsstring :=
  List.map N_of_ascii (list_ascii_of_string s).

Definition inRange (lo hi c : N) : bool := (lo <=? c) && (c <=? hi).

(** The class [a-z] of the regular expressions. *)
Definition isLowerAlpha (c : N) : bool := inRange 0x61 0x7a c.
Definition isUpperAlpha (c : N) : bool := inRange 0x41 0x5a c.
(** The class [0-9]. *)
Definition isDigit (c : N) : bool := inRange 0x30 0x39 c.

(** The class [\s] of a regular expression without the [u] flag; it is also
    the set [String.prototype.trim] strips (WhiteSpace and LineTerminator). *)
Definition isSpace (c : N) : bool :=
  inRange 0x09 0x0d c || (c =? 0x20) || (c =? 0xa0) || (c =? 0x1680)
  || inRange 0x2000 0x200a c || (c =? 0x2028) || (c =? 0x2029)
  || (c =? 0x202f) || (c =? 0x205f) || (c =? 0x3000) || (c =? 0xfeff).

(** The class [\u0300-\u036f] of combining diacritical marks. *)
Definition isCombiningMark (c : N) : bool := inRange 0x300 0x36f c.

(** The class [a-z0-9\s], whose complement the normaliser removes. *)
Definition isKept (c : N) : bool := isLowerAlpha c || isDigit c || isSpace c.

(** [s.replace(/[cls]/g, "")]: every code unit of the class is removed. *)
Definition removeAll (cls : N → bool) (s : jsstring) : jsstring :=
  List.filter (λ c, negb (cls c)) s.

Fixpoint trimStart (s : jsstring) : jsstring :=
  match s with
  | c :: s' => if isSpace c then trimStart s' else s
  | [] => []
  end.

Definition trimEnd (s : jsstring) : jsstring := rev (trimStart (rev s)).

(** [String.prototype.trim]. *)
Definition trim (s : jsstring) : jsstring := trimEnd (trimStart s).

(** The two built-ins of the platform whose tables are not part of the
    repository: [String.prototype.toLowerCase] and
    [String.prototype.normalize("NFD")]. *)
Class StringBuiltins := {
  toLowerCase : jsstring → jsstring;
  normalizeNFD : jsstring → jsstring
}.

(** EN QUAD and EM QUAD: the two code units of [\s] that have a canonical
    (singleton) decomposition, to EN SPACE and EM SPACE. *)
Definition isQuadSpace (c : N) : bool := (c =? 0x2000) || (c =? 0x2001).

(** What the Unicode standard says of the built-ins on the alphabet
    [a-z0-9\s]: none of its characters has a lowercase mapping, none but the
    two quads has a decomposition or a non-zero combining class, and a string
    in normal form D holds no character that has a decomposition. *)
Class UnicodeFacts `{B : StringBuiltins} : Prop := {
  toLowerCase_kept s :
    forallb isKept s = true → toLowerCase s = s;
  normalizeNFD_kept s :
    forallb (λ c, isKept c && negb (isQuadSpace c)) s = true →
    normalizeNFD s = s;
  normalizeNFD_no_quad s :
    forallb (λ c, negb (isQuadSpace c)) (normalizeNFD s) = true
}.

Section Normalizer.
Context `{B : StringBuiltins}.

(** [normalizeText] (sheets.js, lines 56-63). *)
Definition normalizeText (text : jsstring) : jsstring :=
  trim
    (removeAll (λ c, negb (isKept c))
       (removeAll isCombiningMark
          (normalizeNFD (toLowerCase text)))).
End Normalizer.

(** ** The built-ins on Latin-1 text

    The tables of the Unicode Character Database for Basic Latin and Latin-1
    Supplement (U+0000 to U+00FF), and for the two quad spaces.  Other code
    units are passed through, so this instance is the platform's behaviour
    on Latin-1 text only; it is what the concrete examples are run with. *)
Module Latin1.

Definition lower1 (c : N) : N :=
  if isUpperAlpha c then c + 32
  else if inRange 0xc0 0xde c && negb (c =? 0xd7) then c + 32
  else c.

(** The characters that have a canonical decomposition, each with it. *)
Definition decompositions : list (N * jsstring) :=
  [ (0xc0, [0x41; 0x300]); (0xc1, [0x41; 0x301]); (0xc2, [0x41; 0x302]);
    (0xc3, [0x41; 0x303]); (0xc4, [0x41; 0x308]); (0xc5, [0x41; 0x30a]);
    (0xc7, [0x43; 0x327]);
    (0xc8, [0x45; 0x300]); (0xc9, [0x45; 0x301]); (0xca, [0x45; 0x302]);
    (0xcb, [0x45; 0x308]);
    (0xcc, [0x49; 0x300]); (0xcd, [0x49; 0x301]); (0xce, [0x49; 0x302]);
    (0xcf, [0x49; 0x308]);
    (0xd1, [0x4e; 0x303]);
    (0xd2, [0x4f; 0x300]); (0xd3, [0x4f; 0x301]); (0xd4, [0x4f; 0x302]);
    (0xd5, [0x4f; 0x303]); (0xd6, [0x4f; 0x308]);
    (0xd9, [0x55; 0x300]); (0xda, [0x55; 0x301]); (0xdb, [0x55; 0x302]);
    (0xdc, [0x55; 0x308]);
    (0xdd, [0x59; 0x301]);
    (0xe0, [0x61; 0x300]); (0xe1, [0x61; 0x301]); (0xe2, [0x61; 0x302]);
    (0xe3, [0x61; 0x303]); (0xe4, [0x61; 0x308]); (0xe5, [0x61; 0x30a]);
    (0xe7, [0x63; 0x327]);
    (0xe8, [0x65; 0x300]); (0xe9, [0x65; 0x301]); (0xea, [0x65; 0x302]);
    (0xeb, [0x65; 0x308]);
    (0xec, [0x69; 0x300]); (0xed, [0x69; 0x301]); (0xee, [0x69; 0x302]);
    (0xef, [0x69; 0x308]);
    (0xf1, [0x6e; 0x303]);
    (0xf2, [0x6f; 0x300]); (0xf3, [0x6f; 0x301]); (0xf4, [0x6f; 0x302]);
    (0xf5, [0x6f; 0x303]); (0xf6, [0x6f; 0x308]);
    (0xf9, [0x75; 0x300]); (0xfa, [0x75; 0x301]); (0xfb, [0x75; 0x302]);
    (0xfc, [0x75; 0x308]);
    (0xfd, [0x79; 0x301]); (0xff, [0x79; 0x308]);
    (0x2000, [0x2002]); (0x2001, [0x2003]) ].

Fixpoint lookupTable (c : N) (table : list (N * jsstring))
  : option jsstring :=
  match table with
  | [] => None
  | (k, d) :: rest => if c =? k then Some d else lookupTable c rest
  end.

(** Canonical decomposition of one code unit. *)
Definition decompose1 (c : N) : jsstring :=
  default [c] (lookupTable c decompositions).

Definition builtins : StringBuiltins := {|
  toLowerCase := List.map lower1;
  normalizeNFD := flat_map decompose1
|}.

End Latin1.

(** ** The flow matcher (sheets.js, lines 70-107) *)

(** One row of the sheet [Flujos], as [getFlows] builds it: a missing or
    empty cell is [null]. *)
Record Flow := {
  addKeyword : option jsstring;
  addAnswer : option jsstring;
  media : option jsstring
}.

#[global] Instance Flow_eq_dec : EqDecision Flow.
Proof. solve_decision. Defined.

(** [s.split(sep)] for a separator of one code unit: never empty, the empty
    string gives one empty piece. *)
Fixpoint split (sep : N) (s : jsstring) : list jsstring :=
  match s with
  | [] => [[]]
  | c :: s' =>
      if c =? sep then [] :: split sep s'
      else match split sep s' with
           | piece :: pieces => (c :: piece) :: pieces
           | [] => [[c]]
           end
  end.

Fixpoint startsWith (k s : jsstring) : bool :=
  match k, s with
  | [], _ => true
  | a :: k', b :: s' => (a =? b) && startsWith k' s'
  | _ :: _, [] => false
  end.

(** [s.includes(k)]. *)
Fixpoint includes (s k : jsstring) : bool :=
  startsWith k s
  || match s with
     | [] => false
     | _ :: s' => includes s' k
     end.

(** The class [\w] that the assertion [\b] looks at. *)
Definition isWordChar (c : N) : bool :=
  isLowerAlpha c || isUpperAlpha c || isDigit c || (c =? 0x5f).

Definition isWordAt (c : option N) : bool :=
  match c with Some c => isWordChar c | None => false end.

(** [\b] between the code unit before the position and the one after it. *)
Definition wordBoundary (before after : option N) : bool :=
  xorb (isWordAt before) (isWordAt after).

(** Canonicalize of the flag [i] (no [u] flag).  Only a lowercase ASCII
    letter has an uppercase form among the code units of [a-z0-9\s], which
    is all the matcher gives the regular expression. *)
Definition canonicalize (c : N) : N := if isLowerAlpha c then c - 32 else c.

(** The keyword read as a pattern of literal characters against [s]: the
    last code unit consumed and the rest of [s], when it matches here. *)
Fixpoint matchLiteral (before : option N) (k s : jsstring)
  : option (option N * jsstring) :=
  match k with
  | [] => Some (before, s)
  | a :: k' =>
      match s with
      | b :: s' =>
          if canonicalize a =? canonicalize b
          then matchLiteral (Some b) k' s' else None
      | [] => None
      end
  end.

Definition matchWordHere (before : option N) (k s : jsstring) : bool :=
  wordBoundary before (head s)
  && match matchLiteral before k s with
     | Some (last, rest) => wordBoundary last (head rest)
     | None => false
     end.

Fixpoint matchWordFrom (before : option N) (k s : jsstring) : bool :=
  matchWordHere before k s
  || match s with
     | [] => false
     | c :: s' => matchWordFrom (Some c) k s'
     end.

(** [new RegExp(`\\b${keyword}\\b`, "i").test(msg)], for a keyword without
    syntax characters (a normalised keyword has none). *)
Definition regexWord_test (keyword msg : jsstring) : bool :=
  matchWordFrom None keyword msg.

(** The three comparisons tried on one keyword, in the order of the code. *)
Inductive Tier := Exact | WholeWord | Partial.

(** The body of the inner loop: the tier at which the keyword returns the
    flow, [None] when the loop goes on to the next keyword. *)
Definition matchKeyword (msg keyword : jsstring) : option Tier :=
  match keyword with
  | [] => None
  | _ =>
      if decide (msg = keyword) then Some Exact
      else if regexWord_test keyword msg then Some WholeWord
      else if includes msg keyword then Some Partial
      else None
  end.

(** The inner loop over the keywords of one flow. *)
Fixpoint matchKeywords (msg : jsstring) (keywords : list jsstring)
  : option Tier :=
  match keywords with
  | [] => None
  | keyword :: rest =>
      match matchKeyword msg keyword with
      | Some t => Some t
      | None => matchKeywords msg rest
      end
  end.

Section Matcher.
Context `{B : StringBuiltins}.

(** [(flow.addKeyword || "").split(",").map(k => normalizeText(k))]. *)
Definition keywordsOf (flow : Flow) : list jsstring :=
  List.map normalizeText (split 0x2c (default [] (addKeyword flow))).

(** The outer loop over the flows, on the normalised message. *)
Fixpoint matchFlows (msg : jsstring) (flows : list Flow) : option Flow :=
  match flows with
  | [] => None
  | flow :: rest =>
      match matchKeywords msg (keywordsOf flow) with
      | Some _ => Some flow
      | None => matchFlows msg rest
      end
  end.
End Matcher.

(** ** Values of a settings object *)

(** A JavaScript number by its mathematical value, a reduced fraction; the
    rounding of a decimal literal to binary64 is not modelled. *)
Inductive Number :=
  | NaN
  | Infinity (negative : bool)
  | Finite (negative : bool) (magnitude : Q).

(** What a property of a settings object holds: a cell of the sheet (a
    string) or the number [loadSettings] put in its place. *)
Inductive Value :=
  | VStr (s : jsstring)
  | VNum (n : Number).

Fixpoint digitsToN (base : N) (digit : N → option N) (acc : N) (s : jsstring)
  : option N :=
  match s with
  | [] => Some acc
  | c :: s' =>
      match digit c with
      | Some d => digitsToN base digit (acc * base + d) s'
      | None => None
      end
  end.

Definition decDigit (c : N) : option N :=
  if isDigit c then Some (c - 0x30) else None.
Definition hexDigit (c : N) : option N :=
  if isDigit c then Some (c - 0x30)
  else if inRange 0x61 0x66 c then Some (c - 0x61 + 10)
  else if inRange 0x41 0x46 c then Some (c - 0x41 + 10)
  else None.
Definition octDigit (c : N) : option N :=
  if inRange 0x30 0x37 c then Some (c - 0x30) else None.
Definition binDigit (c : N) : option N :=
  if inRange 0x30 0x31 c then Some (c - 0x30) else None.

(** The longest prefix of decimal digits, and what follows it. *)
Fixpoint spanDigits (s : jsstring) : jsstring * jsstring :=
  match s with
  | c :: s' =>
      if isDigit c then let (ds, r) := spanDigits s' in (c :: ds, r)
      else ([], s)
  | [] => ([], [])
  end.

(** [mantissa * 10 ^ exponent]. *)
Definition decimalValue (mantissa : N) (exponent : Z) : Q :=
  Qred (if (0 <=? exponent)%Z
        then inject_Z (Z.of_N mantissa * 10 ^ exponent)
        else Qmake (Z.of_N mantissa) (Z.to_pos (10 ^ (- exponent)))).

(** ExponentPart (optional) up to the end of the string. *)
Definition parseExponent (s : jsstring) : option Z :=
  match s with
  | [] => Some 0%Z
  | c :: r =>
      if (c =? 0x65) || (c =? 0x45) then
        let '(neg, ds) :=
          match r with
          | 0x2b :: ds => (false, ds)
          | 0x2d :: ds => (true, ds)
          | _ => (false, r)
          end in
        match ds with
        | [] => None
        | _ =>
            match digitsToN 10 decDigit 0 ds with
            | Some n => Some (if neg then (- Z.of_N n)%Z else Z.of_N n)
            | None => None
            end
        end
      else None
  end.

(** StrUnsignedDecimalLiteral: [Infinity], [d.d e], [.d e] or [d e]. *)
Definition parseUnsignedDecimal (negative : bool) (s : jsstring) : Number :=
  if decide (s = js "Infinity") then Infinity negative
  else
    let (ip, r1) := spanDigits s in
    let '(fp, r2) :=
      match r1 with
      | 0x2e :: r => spanDigits r
      | _ => ([], r1)
      end in
    let dotted := match r1 with 0x2e :: _ => true | _ => false end in
    let wellFormed :=
      if dotted then negb (bool_decide (ip = []) && bool_decide (fp = []))
      else negb (bool_decide (ip = [])) in
    if wellFormed then
      match parseExponent r2, digitsToN 10 decDigit 0 (ip ++ fp) with
      | Some e, Some m =>
          Finite negative (decimalValue m (e - Z.of_nat (length fp)))
      | _, _ => NaN
      end
    else NaN.

(** NonDecimalIntegerLiteral: [0x], [0o] or [0b] and at least one digit. *)
Definition parseNonDecimal (s : jsstring) : option N :=
  match s with
  | 0x30 :: p :: (_ :: _) as ds =>
      if (p =? 0x78) || (p =? 0x58) then digitsToN 16 hexDigit 0 ds
      else if (p =? 0x6f) || (p =? 0x4f) then digitsToN 8 octDigit 0 ds
      else if (p =? 0x62) || (p =? 0x42) then digitsToN 2 binDigit 0 ds
      else None
  | _ => None
  end.

(** StringToNumber of the language: surrounding white space is dropped, the
    empty string is [+0], and the rest must be one StrNumericLiteral. *)
Definition stringToNumber (s : jsstring) : Number :=
  match trim s with
  | [] => Finite false 0
  | t =>
      match parseNonDecimal t with
      | Some n => Finite false (decimalValue n 0)
      | None =>
          match t with
          | 0x2b :: r => parseUnsignedDecimal false r
          | 0x2d :: r => parseUnsignedDecimal true r
          | _ => parseUnsignedDecimal false t
          end
      end
  end.

(** [Number(v)]. *)
Definition toNumber (v : Value) : Number :=
  match v with
  | VStr s => stringToNumber s
  | VNum n => n
  end.

(** The global [isNaN(v)]. *)
Definition isNaN (v : Value) : bool :=
  match toNumber v with
  | NaN => true
  | _ => false
  end.

(** Truthiness of a value, as [||] tests it. *)
Definition truthy (v : Value) : bool :=
  match v with
  | VStr [] => false
  | VStr _ => true
  | VNum NaN => false
  | VNum (Infinity _) => true
  | VNum (Finite _ q) => negb (Qeq_bool q 0)
  end.

(** A plain object with string keys. *)
Abbreviation Obj := (gmap jsstring Value).

(** [o[key] = v] on a plain object: an own property is written, except
    that the key [__proto__] reaches the setter of [Object.prototype],
    which ignores a value that is not an object. *)
Definition setProperty (key : jsstring) (v : Value) (o : Obj) : Obj :=
  if decide (key = js "__proto__") then o else <[key := v]> o.

(** [row[i]] as a condition: the cell when it is there and not empty. *)
Definition cell (row : list jsstring) (i : nat) : option jsstring :=
  match row !! i with
  | Some (c :: s) => Some (c :: s)
  | _ => None
  end.

(** ** The world: both singletons, the shared objects, the outside *)

(** A row of [Mensajes_Programados], as [getScheduledMessages] builds it. *)
Record ScheduledMessage := {
  rowIndex : N;
  fecha : option jsstring;
  hora : option jsstring;
  phone : option jsstring;
  answer : option jsstring;
  mediaUrl : option jsstring;
  estado : option jsstring
}.

(** A reference to a settings object. *)
Abbreviation loc := nat.

(** The cache fields of [GoogleSheetService] (its constructor, lines
    37-44).  The prompts cache holds a reference: the object it points to is
    the one handed to the callers of [getPrompts]. *)
Record GoogleSheetService := {
  flowsCache : option (list Flow);
  promptsCache : option loc;
  scheduledMessagesCache : option (list ScheduledMessage);
  lastFlowsFetch : Z;
  lastPromptsFetch : Z;
  lastScheduledMessagesFetch : Z;
  cacheDuration : Z
}.

(** The state the constructor leaves. *)
Definition newGoogleSheetService : GoogleSheetService := {|
  flowsCache := None;
  promptsCache := None;
  scheduledMessagesCache := None;
  lastFlowsFetch := 0;
  lastPromptsFetch := 0;
  lastScheduledMessagesFetch := 0;
  cacheDuration := 5 * 60 * 1000
|}.

(** [GroqService]: [this.settings], a reference or [null]. *)
Record GroqService := { settings : option loc }.

(** One entry of the list sent to the completion service. *)
Record Message := { role : jsstring; content : Value }.

(** The calls that leave the process. *)
Inductive Call :=
  | SheetsValuesGet (range : jsstring)
  | SheetsValuesUpdate (range : jsstring) (value : jsstring)
  | ChatGetContextForAI (phoneNumber : jsstring)
  | ChatSaveMessage (phoneNumber : jsstring) (role : jsstring)
      (content : jsstring)
  | GroqCompletion (messages : list Message).

Record World := {
  sheetService : GoogleSheetService;
  groqService : GroqService;
  heap : list Obj;
  calls : list Call
}.

(** How an awaited call ends. *)
Inductive Outcome (A : Type) :=
  | Rejected
  | Resolved (a : A).
Arguments Rejected {A}.
Arguments Resolved {A} a.

(** What the outside answers during one operation: the reading of
    [Date.now()], [sheets.spreadsheets.values.get] by range (its
    [data.values], [undefined] for an empty range),
    [sheets.spreadsheets.values.update], and the chat history service. *)
Record Env := {
  now : Z;
  values_get : jsstring → Outcome (option (list (list jsstring)));
  values_update : jsstring → jsstring → Outcome unit;
  getContextForAI : jsstring → Outcome (list Message);
  saveMessage : jsstring → jsstring → jsstring → Outcome unit
}.

(** State transformers over the world. *)
Definition M (A : Type) : Type := World → A * World.

#[global] Instance M_ret : MRet M := λ A a w, (a, w).
#[global] Instance M_bind : MBind M :=
  λ A B f m w, let '(a, w') := m w in f a w'.

Definition this_sheets : M GoogleSheetService := λ w, (sheetService w, w).
Definition this_groq : M GroqService := λ w, (groqService w, w).

Definition modify_sheets (f : GoogleSheetService → GoogleSheetService)
  : M unit :=
  λ w, (tt, {| sheetService := f (sheetService w);
               groqService := groqService w;
               heap := heap w; calls := calls w |}).

Definition set_settings (l : option loc) : M unit :=
  λ w, (tt, {| sheetService := sheetService w;
               groqService := {| settings := l |};
               heap := heap w; calls := calls w |}).

(** A call to the outside is logged when it is made. *)
Definition call (c : Call) : M unit :=
  λ w, (tt, {| sheetService := sheetService w;
               groqService := groqService w;
               heap := heap w; calls := calls w ++ [c] |}).

(** A new object. *)
Definition alloc (o : Obj) : M loc :=
  λ w, (length (heap w),
        {| sheetService := sheetService w; groqService := groqService w;
           heap := heap w ++ [o]; calls := calls w |}).

(** The object a reference points to. *)
Definition load (l : loc) : M Obj := λ w, (default ∅ (heap w !! l), w).

(** The object a reference points to is changed in place. *)
Definition store (l : loc) (o : Obj) : M unit :=
  λ w, (tt, {| sheetService := sheetService w; groqService := groqService w;
               heap := <[l := o]> (heap w); calls := calls w |}).

(** Field assignments of [GoogleSheetService]. *)
Definition set_flowsCache v (s : GoogleSheetService) :=
  {| flowsCache := v; promptsCache := promptsCache s;
     scheduledMessagesCache := scheduledMessagesCache s;
     lastFlowsFetch := lastFlowsFetch s;
     lastPromptsFetch := lastPromptsFetch s;
     lastScheduledMessagesFetch := lastScheduledMessagesFetch s;
     cacheDuration := cacheDuration s |}.
Definition set_promptsCache v (s : GoogleSheetService) :=
  {| flowsCache := flowsCache s; promptsCache := v;
     scheduledMessagesCache := scheduledMessagesCache s;
     lastFlowsFetch := lastFlowsFetch s;
     lastPromptsFetch := lastPromptsFetch s;
     lastScheduledMessagesFetch := lastScheduledMessagesFetch s;
     cacheDuration := cacheDuration s |}.
Definition set_scheduledMessagesCache v (s : GoogleSheetService) :=
  {| flowsCache := flowsCache s; promptsCache := promptsCache s;
     scheduledMessagesCache := v;
     lastFlowsFetch := lastFlowsFetch s;
     lastPromptsFetch := lastPromptsFetch s;
     lastScheduledMessagesFetch := lastScheduledMessagesFetch s;
     cacheDuration := cacheDuration s |}.
Definition set_lastFlowsFetch v (s : GoogleSheetService) :=
  {| flowsCache := flowsCache s; promptsCache := promptsCache s;
     scheduledMessagesCache := scheduledMessagesCache s;
     lastFlowsFetch := v;
     lastPromptsFetch := lastPromptsFetch s;
     lastScheduledMessagesFetch := lastScheduledMessagesFetch s;
     cacheDuration := cacheDuration s |}.
Definition set_lastPromptsFetch v (s : GoogleSheetService) :=
  {| flowsCache := flowsCache s; promptsCache := promptsCache s;
     scheduledMessagesCache := scheduledMessagesCache s;
     lastFlowsFetch := lastFlowsFetch s;
     lastPromptsFetch := v;
     lastScheduledMessagesFetch := lastScheduledMessagesFetch s;
     cacheDuration := cacheDuration s |}.
Definition set_lastScheduledMessagesFetch v (s : GoogleSheetService) :=
  {| flowsCache := flowsCache s; promptsCache := promptsCache s;
     scheduledMessagesCache := scheduledMessagesCache s;
     lastFlowsFetch := lastFlowsFetch s;
     lastPromptsFetch := lastPromptsFetch s;
     lastScheduledMessagesFetch := v;
     cacheDuration := cacheDuration s |}.

(** ** [GoogleSheetService] (sheets.js) *)

(** The callback of [rows.map] in [getFlows]: [row[index] || null] under
    each of the three headers. *)
Definition parseFlow (row : list jsstring) : Flow :=
  {| addKeyword := cell row 0; addAnswer := cell row 1; media := cell row 2 |}.

Definition flowsRange : jsstring := js "Flujos!A2:C".
Definition promptsRange : jsstring := js "IA_Prompts!A2:C".
Definition scheduledRange : jsstring := js "Mensajes_Programados!A2:F".

(** [getFlows] (lines 112-145). *)
Definition getFlows (e : Env) : M (list Flow) :=
  this ← this_sheets;
  let refresh : M (list Flow) :=
    _ ← call (SheetsValuesGet flowsRange);
    match values_get e flowsRange with
    | Resolved values =>
        let rows := default [] values in
        let flows := List.map parseFlow rows in
        _ ← modify_sheets (set_flowsCache (Some flows));
        _ ← modify_sheets (set_lastFlowsFetch (now e));
        mret flows
    | Rejected => mret []
    end in
  match flowsCache this with
  | Some cached =>
      if (now e - lastFlowsFetch this <? cacheDuration this)%Z
      then mret cached else refresh
  | None => refresh
  end.

(** The settings object [getPrompts] builds from the rows (lines 164-177):
    the seed from the first row's first cell, then every row's second and
    third cells as key and value. *)
Definition seedPrompt (rows : list (list jsstring)) : Obj :=
  match rows with
  | row0 :: _ =>
      match cell row0 0 with
      | Some prompt => setProperty (js "system_prompt") (VStr prompt) ∅
      | None => ∅
      end
  | [] => ∅
  end.

Definition addPromptRow (settings : Obj) (row : list jsstring) : Obj :=
  match cell row 1, cell row 2 with
  | Some key, Some value => setProperty key (VStr value) settings
  | _, _ => settings
  end.

Definition parsePrompts (rows : list (list jsstring)) : Obj :=
  fold_left addPromptRow rows (seedPrompt rows).

(** [getPrompts] (lines 150-187); it returns the reference it caches. *)
Definition getPrompts (e : Env) : M loc :=
  this ← this_sheets;
  let refresh : M loc :=
    _ ← call (SheetsValuesGet promptsRange);
    match values_get e promptsRange with
    | Resolved values =>
        let rows := default [] values in
        settings ← alloc (parsePrompts rows);
        _ ← modify_sheets (set_promptsCache (Some settings));
        _ ← modify_sheets (set_lastPromptsFetch (now e));
        mret settings
    | Rejected => alloc ∅
    end in
  match promptsCache this with
  | Some cached =>
      if (now e - lastPromptsFetch this <? cacheDuration this)%Z
      then mret cached else refresh
  | None => refresh
  end.

(** The callback of [rows.map] in [getScheduledMessages]. *)
Definition parseScheduledMessage (index : nat) (row : list jsstring)
  : ScheduledMessage :=
  {| rowIndex := N.of_nat index + 2;
     fecha := cell row 0; hora := cell row 1; phone := cell row 2;
     answer := cell row 3; mediaUrl := cell row 4; estado := cell row 5 |}.

(** [getScheduledMessages] (lines 192-225). *)
Definition getScheduledMessages (e : Env) : M (list ScheduledMessage) :=
  this ← this_sheets;
  let refresh : M (list ScheduledMessage) :=
    _ ← call (SheetsValuesGet scheduledRange);
    match values_get e scheduledRange with
    | Resolved values =>
        let rows := default [] values in
        let scheduledMessages := imap parseScheduledMessage rows in
        _ ← modify_sheets (set_scheduledMessagesCache (Some scheduledMessages));
        _ ← modify_sheets (set_lastScheduledMessagesFetch (now e));
        mret scheduledMessages
    | Rejected => mret []
    end in
  match scheduledMessagesCache this with
  | Some cached =>
      if (now e - lastScheduledMessagesFetch this <? cacheDuration this)%Z
      then mret cached else refresh
  | None => refresh
  end.

(** A row number in a template literal. *)
Definition numberToString (n : N) : jsstring :=
  js (NilZero.string_of_uint (N.to_uint n)).

Definition statusCell (rowIndex : N) : jsstring :=
  js "Mensajes_Programados!F" ++ numberToString rowIndex.

(** [updateMessageStatus] (lines 230-248). *)
Definition updateMessageStatus (e : Env) (rowIndex : N) (newStatus : jsstring)
  : M bool :=
  _ ← call (SheetsValuesUpdate (statusCell rowIndex) newStatus);
  match values_update e (statusCell rowIndex) newStatus with
  | Resolved _ =>
      _ ← modify_sheets (set_scheduledMessagesCache None);
      mret true
  | Rejected => mret false
  end.

(** [invalidateCache] (lines 254-262). *)
Definition invalidateCache : M unit :=
  _ ← modify_sheets (set_flowsCache None);
  _ ← modify_sheets (set_promptsCache None);
  _ ← modify_sheets (set_scheduledMessagesCache None);
  _ ← modify_sheets (set_lastFlowsFetch 0);
  _ ← modify_sheets (set_lastPromptsFetch 0);
  modify_sheets (set_lastScheduledMessagesFetch 0).

Section FindFlowAnswer.
Context `{B : StringBuiltins}.

(** [findFlowAnswer] (lines 70-107). *)
Definition findFlowAnswer (e : Env) (userMessage : jsstring)
  : M (option Flow) :=
  let msg := normalizeText userMessage in
  flows ← getFlows e;
  mret (matchFlows msg flows).
End FindFlowAnswer.

(** ** [GroqService] (ai-chat.js) *)

(** The body of the [for...in] loop of [loadSettings] for one key. *)
Definition coerceProperty (o : Obj) (key : jsstring) : Obj :=
  match o !! key with
  | Some v => if isNaN v then o else <[key := VNum (toNumber v)]> o
  | None => o
  end.

(** The loop over the keys the object has when it starts.  Each key is an
    own property already, so the assignment in the body is a plain write
    of that property. *)
Definition coerceSettings (o : Obj) : Obj :=
  foldl coerceProperty o (map_to_list o).*1.

(** [loadSettings] (lines 23-32): the object [getPrompts] returned is
    changed in place, then kept in [this.settings]. *)
Definition loadSettings (e : Env) : M unit :=
  settings ← getPrompts e;
  o ← load settings;
  _ ← store settings (coerceSettings o);
  set_settings (Some settings).

Definition defaultSystemPrompt : jsstring :=
  js "Eres un asistente " ++ [0xfa] ++ js "til.".

(** [getResponse] (lines 40-78).  The list [messages] is built and never
    sent: the answer is the constant [aiResponse = '']; a rejection inside
    the [try] is caught and gives [''] as well. *)
Definition getResponse (e : Env) (userInput : jsstring)
    (phoneNumber : option jsstring) : M jsstring :=
  g ← this_groq;
  _ ← (match settings g with
       | None => loadSettings e
       | Some _ => mret tt
       end);
  g ← this_groq;
  o ← load (default 0%nat (settings g));
  let system :=
    {| role := js "system";
       content := match o !! js "system_prompt" with
                  | Some v => if truthy v then v else VStr defaultSystemPrompt
                  | None => VStr defaultSystemPrompt
                  end |} in
  let user := {| role := js "user"; content := VStr userInput |} in
  let aiResponse : jsstring := [] in
  match phoneNumber with
  | Some (c :: p) =>
      let phoneNumber := c :: p in
      _ ← call (ChatGetContextForAI phoneNumber);
      match getContextForAI e phoneNumber with
      | Resolved contextMessages =>
          let messages := [system] ++ contextMessages ++ [user] in
          _ ← call (ChatSaveMessage phoneNumber (js "user") userInput);
          match saveMessage e phoneNumber (js "user") userInput with
          | Resolved _ =>
              _ ← call (ChatSaveMessage phoneNumber (js "assistant") aiResponse);
              match saveMessage e phoneNumber (js "assistant") aiResponse with
              | Resolved _ => mret aiResponse
              | Rejected => mret []
              end
          | Rejected => mret []
          end
      | Rejected => mret []
      end
  | _ =>
      let messages := [system; user] in
      mret aiResponse
  end.

(** ** The three cached resources, side by side *)

Inductive Resource := Flows | Prompts | ScheduledMessages.

(** What a getter returns. *)
Inductive Returned :=
  | RFlows (flows : list Flow)
  | RSettings (settings : loc)
  | RScheduled (messages : list ScheduledMessage).

(** The getter of each resource. *)
Definition get (r : Resource) (e : Env) : M Returned :=
  match r with
  | Flows => flows ← getFlows e; mret (RFlows flows)
  | Prompts => settings ← getPrompts e; mret (RSettings settings)
  | ScheduledMessages => ms ← getScheduledMessages e; mret (RScheduled ms)
  end.

(** The cache field of each resource and its time stamp. *)
Definition cached (r : Resource) (s : GoogleSheetService) : option Returned :=
  match r with
  | Flows => RFlows <$> flowsCache s
  | Prompts => RSettings <$> promptsCache s
  | ScheduledMessages => RScheduled <$> scheduledMessagesCache s
  end.

Definition lastFetch (r : Resource) (s : GoogleSheetService) : Z :=
  match r with
  | Flows => lastFlowsFetch s
  | Prompts => lastPromptsFetch s
  | ScheduledMessages => lastScheduledMessagesFetch s
  end.

Definition rangeOf (r : Resource) : jsstring :=
  match r with
  | Flows => flowsRange
  | Prompts => promptsRange
  | ScheduledMessages => scheduledRange
  end.

(** The condition of the first [if] of the three getters. *)
Definition isFresh (r : Resource) (e : Env) (s : GoogleSheetService) : bool :=
  match cached r s with
  | Some _ => (now e - lastFetch r s <? cacheDuration s)%Z
  | None => false
  end.

(** The step from [w] to [w'] made one call, the fetch of the resource. *)
Definition fetched (r : Resource) (w w' : World) : Prop :=
  calls w' = calls w ++ [SheetsValuesGet (rangeOf r)].

(** The process right after both modules are loaded. *)
Definition initialWorld : World := {|
  sheetService := newGoogleSheetService;
  groqService := {| settings := None |};
  heap := [];
  calls := []
|}.

(** An outside where the sheet holds [flows], [prompts] and [scheduled]
    under the three ranges, every write succeeds and the chat history is
    empty, read at time [t]. *)
Definition sheetEnv (t : Z) (flows prompts scheduled : list (list jsstring))
  : Env := {|
  now := t;
  values_get := λ range,
    if decide (range = flowsRange) then Resolved (Some flows)
    else if decide (range = promptsRange) then Resolved (Some prompts)
    else if decide (range = scheduledRange) then Resolved (Some scheduled)
    else Resolved None;
  values_update := λ _ _, Resolved tt;
  getContextForAI := λ _, Resolved [];
  saveMessage := λ _ _ _, Resolved tt
|}.

(** An outside where every call is rejected, read at time [t]. *)
Definition offlineEnv (t : Z) : Env := {|
  now := t;
  values_get := λ _, Rejected;
  values_update := λ _ _, Rejected;
  getContextForAI := λ _, Rejected;
  saveMessage := λ _ _ _, Rejected
|}.

(** ** Vocabulary of the properties *)

(** The input of the normaliser's example: H, o with acute (U+00F3), l, a,
    two spaces, B, u, e, n, o with acute, s and an exclamation mark. *)
Definition holaBuenos : jsstring :=
  js "H" ++ [0xf3] ++ js "la  Buen" ++ [0xf3] ++ js "s!".

(** A sheet [Flujos] with the two overlapping keywords of the example, and
    a sheet [IA_Prompts] of one row. *)
Definition flowRows : list (list jsstring) :=
  [[js "hola"; js "Bienvenido"]; [js "hola buenos dias"; js "Buenos dias"]].
Definition promptRows : list (list jsstring) :=
  [[js "Eres un bot"; js "temperature"; js "42"]].

(** The caller's fallback of each resource: an empty array, or a new empty
    object. *)
Definition isFallback (r : Resource) (v : Returned) (w' : World) : Prop :=
  match r, v with
  | Flows, RFlows flows => flows = []
  | Prompts, RSettings settings => heap w' !! settings = Some ∅
  | ScheduledMessages, RScheduled messages => messages = []
  | _, _ => False
  end.

(** A keyword satisfies one of the three tiers against the message. *)
Definition keywordHits (msg keyword : jsstring) : Prop :=
  keyword ≠ []
  ∧ (msg = keyword
     ∨ regexWord_test keyword msg = true
     ∨ includes msg keyword = true).

(** Some keyword of the flow satisfies some tier. *)
Definition flowMatches `{B : StringBuiltins} (msg : jsstring) (flow : Flow)
  : Prop :=
  ∃ keyword, In keyword (keywordsOf flow) ∧ keywordHits msg keyword.

(** The value of the last row, in the order of the sheet, whose second cell
    is [key] and whose third cell is there. *)
Fixpoint lastBinding (key : jsstring) (rows : list (list jsstring))
  : option jsstring :=
  match rows with
  | [] => None
  | row :: rest =>
      match lastBinding key rest with
      | Some value => Some value
      | None =>
          match cell row 1, cell row 2 with
          | Some k, Some value => if decide (k = key) then Some value else None
          | _, _ => None
          end
      end
  end.

(** What the loop of [loadSettings] makes of one value. *)
Definition coerce (v : Value) : Value :=
  if isNaN v then v else VNum (toNumber v).

(** The call to the completion service. *)
Definition isCompletion (c : Call) : bool :=
  match c with
  | GroqCompletion _ => true
  | _ => false
  end.

(** A call to the Sheets API. *)
Definition isSheetsCall (c : Call) : bool :=
  match c with
  | SheetsValuesGet _ | SheetsValuesUpdate _ _ => true
  | _ => false
  end.

(** The keyword is not empty and occurs in the message. *)
Definition keywordIncluded (msg keyword : jsstring) : bool :=
  match keyword with
  | [] => false
  | _ => includes msg keyword
  end.

(** Some keyword of the flow is not empty and occurs in the message. *)
Definition flowIncluded `{B : StringBuiltins} (msg : jsstring) (flow : Flow)
  : bool :=
  existsb (keywordIncluded msg) (keywordsOf flow).

(** [pieces.join(sep)] for a separator of one code unit. *)
Fixpoint join (sep : N) (pieces : list jsstring) : jsstring :=
  match pieces with
  | [] => []
  | [piece] => piece
  | piece :: rest => piece ++ sep :: join sep rest
  end.

(** The calls [getResponse] makes to the chat history when all of them
    are answered: none without a phone number. *)
Definition chatProtocol (userInput : jsstring) (phoneNumber : option jsstring)
  : list Call :=
  match phoneNumber with
  | Some (c :: p) =>
      [ ChatGetContextForAI (c :: p);
        ChatSaveMessage (c :: p) (js "user") userInput;
        ChatSaveMessage (c :: p) (js "assistant") [] ]
  | _ => []
  end.

(** The world after the first statement of [getResponse]: the settings are
    loaded when [this.settings] is [null]. *)
Definition withSettings (e : Env) (w : World) : World :=
  match settings (groqService w) with
  | None => (loadSettings e w).2
  | Some _ => w
  end.

(** The operations of the two services, as a caller can issue them. *)
Inductive Op :=
  | OpGetFlows
  | OpGetPrompts
  | OpGetScheduledMessages
  | OpUpdateMessageStatus (rowIndex : N) (newStatus : jsstring)
  | OpInvalidateCache
  | OpFindFlowAnswer (userMessage : jsstring)
  | OpLoadSettings
  | OpGetResponse (userInput : jsstring) (phoneNumber : option jsstring).

Section Exec.
Context `{B : StringBuiltins}.

(** The world an operation leaves. *)
Definition exec (op : Op) (e : Env) (w : World) : World :=
  match op with
  | OpGetFlows => (getFlows e w).2
  | OpGetPrompts => (getPrompts e w).2
  | OpGetScheduledMessages => (getScheduledMessages e w).2
  | OpUpdateMessageStatus rowIndex newStatus =>
      (updateMessageStatus e rowIndex newStatus w).2
  | OpInvalidateCache => (invalidateCache w).2
  | OpFindFlowAnswer userMessage => (findFlowAnswer e userMessage w).2
  | OpLoadSettings => (loadSettings e w).2
  | OpGetResponse userInput phoneNumber =>
      (getResponse e userInput phoneNumber w).2
  end.

(** A run: operations one after the other, each against the outside of its
    moment. *)
Definition runOps (steps : list (Op * Env)) (w : World) : World :=
  foldl (λ w step, exec step.1 step.2 w) w steps.
End Exec.

(** No field of the flow is the empty string. *)
Definition flowOk (flow : Flow) : Prop :=
  addKeyword flow ≠ Some [] ∧ addAnswer flow ≠ Some [] ∧ media flow ≠ Some [].

(** A settings object has no entry under [__proto__] or under the empty
    key, and no entry that is the empty string. *)
Definition objOk (o : Obj) : Prop :=
  o !! js "__proto__" = None
  ∧ o !! [] = None
  ∧ ∀ key, o !! key ≠ Some (VStr []).

(** What every run keeps: the duration of the constructor, references that
    point to objects, flows without empty fields, scheduled messages
    numbered from row 2, and settings objects as [objOk] says. *)
Definition wellFormed (w : World) : Prop :=
  cacheDuration (sheetService w) = 300000%Z
  ∧ (∀ l, promptsCache (sheetService w) = Some l → is_Some (heap w !! l))
  ∧ (∀ l, settings (groqService w) = Some l → is_Some (heap w !! l))
  ∧ (∀ flows, flowsCache (sheetService w) = Some flows → Forall flowOk flows)
  ∧ (∀ messages, scheduledMessagesCache (sheetService w) = Some messages →
       ∀ i m, messages !! i = Some m → rowIndex m = N.of_nat i + 2)
  ∧ Forall objOk (heap w).

(** * Properties *)

(** ** Character classes and trimming *)

Ltac class_prop :=
  unfold isKept, isCombiningMark, isQuadSpace, isSpace, isWordChar,
    isLowerAlpha, isUpperAlpha, isDigit, inRange in *;
  repeat match goal with
  | H : _ = false |- _ => apply not_true_iff_false in H
  | |- _ = false => apply not_true_iff_false; intro
  end;
  repeat first [ rewrite negb_true_iff in * | rewrite andb_true_iff in *
    | rewrite orb_true_iff in * | rewrite N.leb_le in * | rewrite N.eqb_eq in * ].

Lemma kept_not_mark c : isKept c = true → isCombiningMark c = false.
Proof. intros Hk. class_prop. lia. Qed.

Lemma trimStart_incl s c : In c (trimStart s) → In c s.
Proof.
  induction s as [|a s IH]; simpl; [tauto|].
  destruct (isSpace a); simpl; tauto.
Qed.

Lemma trimStart_idem s : trimStart (trimStart s) = trimStart s.
Proof.
  induction s as [|a s IH]; simpl; [done|].
  destruct (isSpace a) eqn:Ha; [done|]. simpl. by rewrite Ha.
Qed.

Lemma trimStart_snoc l c :
  isSpace c = false → ∃ m, trimStart (l ++ [c]) = m ++ [c].
Proof.
  intros Hc. induction l as [|a l [m IH]]; simpl.
  - rewrite Hc. by exists [].
  - destruct (isSpace a); [by exists m|]. by exists (a :: l).
Qed.

Lemma trimStart_head s :
  trimStart s = [] ∨ ∃ c r, trimStart s = c :: r ∧ isSpace c = false.
Proof.
  induction s as [|a s IH]; simpl; [by left|].
  destruct (isSpace a) eqn:Ha; [done|]. right. by exists a, s.
Qed.

(** A trimmed string starts with no white space... *)
Lemma trim_trimStart s : trimStart (trim s) = trim s.
Proof.
  unfold trim, trimEnd.
  destruct (trimStart_head s) as [->|(c & r & -> & Hc)]; [done|].
  cbn [rev].
  destruct (trimStart_snoc (rev r) c Hc) as [m ->].
  rewrite rev_app_distr. simpl. by rewrite Hc.
Qed.

(** ... and ends with none. *)
Lemma trimEnd_idem s : trimEnd (trimEnd s) = trimEnd s.
Proof. unfold trimEnd. by rewrite rev_involutive, trimStart_idem. Qed.

Lemma trim_idem s : trim (trim s) = trim s.
Proof.
  unfold trim at 1. rewrite trim_trimStart. unfold trim. apply trimEnd_idem.
Qed.

Lemma trim_incl s c : In c (trim s) → In c s.
Proof.
  unfold trim, trimEnd. rewrite <- in_rev. intros Hc%trimStart_incl.
  rewrite <- in_rev in Hc. by apply trimStart_incl.
Qed.

Lemma forallb_incl {A} (P : A → bool) (l l' : list A) :
  (∀ x, In x l' → In x l) → forallb P l = true → forallb P l' = true.
Proof. rewrite !forallb_forall. auto. Qed.

Lemma removeAll_incl cls s c : In c (removeAll cls s) → In c s.
Proof. unfold removeAll. rewrite filter_In. tauto. Qed.

Lemma removeAll_id cls s :
  forallb (λ c, negb (cls c)) s = true → removeAll cls s = s.
Proof.
  unfold removeAll. induction s as [|a s IH]; simpl; [done|].
  intros [-> Hs]%andb_true_iff. by rewrite IH.
Qed.

(** ** The normaliser *)

Section NormalizerFacts.
Context `{UnicodeFacts}.

(** The output is over [a-z0-9\s]. *)
Lemma normalizeText_kept x : forallb isKept (normalizeText x) = true.
Proof.
  apply forallb_forall. intros c Hc%trim_incl.
  unfold removeAll in Hc. apply filter_In in Hc as [_ Hc].
  by rewrite negb_involutive in Hc.
Qed.

Lemma normalizeText_no_quad x :
  forallb (λ c, negb (isQuadSpace c)) (normalizeText x) = true.
Proof.
  eapply forallb_incl; [|apply (normalizeNFD_no_quad (toLowerCase x))].
  intros c Hc%trim_incl. by do 2 apply removeAll_incl in Hc.
Qed.

Lemma normalizeText_trimmed x : trim (normalizeText x) = normalizeText x.
Proof. apply trim_idem. Qed.

(** C9.  The normaliser is idempotent: on its own output, which is
    lowercase, in normal form D, free of marks and symbols and trimmed,
    every step of [normalizeText] is the identity.  The tables of the
    platform enter through [UnicodeFacts]. *)
Theorem normalizeText_idempotent x :
  normalizeText (normalizeText x) = normalizeText x.
Proof.
  pose proof (normalizeText_kept x) as Hk.
  pose proof (normalizeText_no_quad x) as Hq.
  unfold normalizeText at 1.
  rewrite toLowerCase_kept by done.
  rewrite normalizeNFD_kept.
  - rewrite (removeAll_id isCombiningMark).
    + rewrite removeAll_id; [apply normalizeText_trimmed|].
      apply forallb_forall. intros c Hc. rewrite negb_involutive.
      by eapply forallb_forall in Hk.
    + apply forallb_forall. intros c Hc.
      eapply forallb_forall in Hk; [|done].
      by rewrite kept_not_mark.
  - apply forallb_forall. intros c Hc.
    eapply forallb_forall in Hk; [|done]. eapply forallb_forall in Hq; [|done].
    by rewrite Hk.
Qed.
End NormalizerFacts.

(** The Latin-1 tables satisfy [UnicodeFacts]. *)
Module Latin1Facts.
Import Latin1.

Lemma lower1_kept c : isKept c = true → lower1 c = c.
Proof.
  intros Hk. unfold lower1.
  destruct (isUpperAlpha c) eqn:Hu.
  { class_prop. lia. }
  destruct (inRange 0xc0 0xde c && negb (c =? 0xd7)) eqn:Hr; [|done].
  apply andb_true_iff in Hr as [Hr _]. class_prop. lia.
Qed.

Lemma lookupTable_Some c table d :
  lookupTable c table = Some d → In (c, d) table.
Proof.
  induction table as [|[k d'] table IH]; simpl; [done|].
  destruct (c =? k) eqn:Hck.
  - apply N.eqb_eq in Hck as ->. intros [= ->]. by left.
  - auto.
Qed.

Lemma decompose1_kept c :
  isKept c && negb (isQuadSpace c) = true → decompose1 c = [c].
Proof.
  intros Hc. unfold decompose1.
  destruct (lookupTable c decompositions) as [d|] eqn:Hl; [|done].
  apply lookupTable_Some in Hl.
  assert (forallb (λ kd, negb (isKept kd.1 && negb (isQuadSpace kd.1)))
            decompositions = true) as Ht by (vm_compute; reflexivity).
  eapply forallb_forall in Ht; [|exact Hl]. simpl in Ht.
  by rewrite Hc in Ht.
Qed.

Lemma decompose1_no_quad c :
  forallb (λ c, negb (isQuadSpace c)) (decompose1 c) = true.
Proof.
  unfold decompose1.
  destruct (lookupTable c decompositions) as [d|] eqn:Hl; simpl.
  - apply lookupTable_Some in Hl.
    assert (forallb (λ kd, forallb (λ c, negb (isQuadSpace c)) kd.2)
              decompositions = true) as Ht by (vm_compute; reflexivity).
    eapply forallb_forall in Ht; [|exact Hl]. done.
  - rewrite andb_true_r. unfold isQuadSpace.
    destruct (c =? 0x2000) eqn:H0.
    { apply N.eqb_eq in H0 as ->. vm_compute in Hl. done. }
    destruct (c =? 0x2001) eqn:H1; [|done].
    apply N.eqb_eq in H1 as ->. vm_compute in Hl. done.
Qed.

Lemma facts : @UnicodeFacts builtins.
Proof.
  split; simpl.
  - induction s as [|c s IH]; simpl; [done|].
    intros [Hc Hs]%andb_true_iff. by rewrite lower1_kept, IH.
  - induction s as [|c s IH]; simpl; [done|].
    intros [Hc Hs]%andb_true_iff. by rewrite decompose1_kept, IH.
  - induction s as [|c s IH]; simpl; [done|].
    rewrite forallb_app, decompose1_no_quad. done.
Qed.
End Latin1Facts.

(** Idempotence at the example, with the Latin-1 tables. *)
Lemma normalizeText_idempotent_witness :
  normalizeText (B := Latin1.builtins)
    (normalizeText (B := Latin1.builtins) holaBuenos)
  = normalizeText (B := Latin1.builtins) holaBuenos.
Proof.
  exact (@normalizeText_idempotent Latin1.builtins Latin1Facts.facts holaBuenos).
Defined.

(** C6, as the code has it.  The normaliser removes symbols and marks and
    trims the ends; white space inside the text is kept as it is, so the two
    spaces of the example stay two. *)
Theorem normalizeText_example :
  normalizeText (B := Latin1.builtins) holaBuenos = js "hola  buenos".
Proof. vm_compute. reflexivity. Qed.

(** The example of the specification does not come out with one space. *)
Lemma normalizeText_example_not_collapsed :
  normalizeText (B := Latin1.builtins) holaBuenos = js "hola  buenos"
  ∧ normalizeText (B := Latin1.builtins) holaBuenos ≠ js "hola buenos".
Proof. split; [vm_compute; reflexivity|]. vm_compute. discriminate. Qed.

(** ** The caches *)

Ltac run :=
  unfold get, getFlows, getPrompts, getScheduledMessages, updateMessageStatus,
    invalidateCache, mbind, M_bind, mret, M_ret, this_sheets, this_groq,
    modify_sheets, call, alloc, load, store, set_settings in *;
  cbn [fst snd sheetService groqService heap calls] in *.

(** A fresh entry is returned as it is: no call, no change. *)
Lemma get_hit r e w v :
  cached r (sheetService w) = Some v →
  (now e < lastFetch r (sheetService w) + cacheDuration (sheetService w))%Z →
  get r e w = (v, w).
Proof.
  intros Hc Hlt.
  assert ((now e - lastFetch r (sheetService w)
           <? cacheDuration (sheetService w))%Z = true)
    as Hb by (apply Z.ltb_lt; lia).
  destruct r; simpl in *; run.
  - destruct (flowsCache (sheetService w)); simplify_eq/=. by rewrite Hb.
  - destruct (promptsCache (sheetService w)); simplify_eq/=. by rewrite Hb.
  - destruct (scheduledMessagesCache (sheetService w)); simplify_eq/=.
    by rewrite Hb.
Qed.

(** Without a fresh entry the source is asked. *)
Lemma get_miss r e w :
  isFresh r e (sheetService w) = false →
  fetched r w (get r e w).2.
Proof.
  unfold isFresh, fetched. intros Hf.
  destruct r; simpl in *; run.
  - destruct (flowsCache (sheetService w)); simpl in *; rewrite ?Hf;
      destruct (values_get e flowsRange); done.
  - destruct (promptsCache (sheetService w)); simpl in *; rewrite ?Hf;
      destruct (values_get e promptsRange); done.
  - destruct (scheduledMessagesCache (sheetService w)); simpl in *; rewrite ?Hf;
      destruct (values_get e scheduledRange); done.
Qed.

(** A fetch that succeeds stores what it returns, stamped with the clock. *)
Lemma get_refresh r e w values :
  isFresh r e (sheetService w) = false →
  values_get e (rangeOf r) = Resolved values →
  cached r (sheetService (get r e w).2) = Some (get r e w).1
  ∧ lastFetch r (sheetService (get r e w).2) = now e
  ∧ cacheDuration (sheetService (get r e w).2) = cacheDuration (sheetService w).
Proof.
  unfold isFresh. intros Hf Hv.
  destruct r; simpl in *; run.
  - destruct (flowsCache (sheetService w)); simpl in *; rewrite ?Hf, Hv; done.
  - destruct (promptsCache (sheetService w)); simpl in *; rewrite ?Hf, Hv; done.
  - destruct (scheduledMessagesCache (sheetService w)); simpl in *;
      rewrite ?Hf, Hv; done.
Qed.

(** C1.  For each of the three resources: let a [get] at time [now e0] miss
    and its fetch succeed, storing [v].  A later [get] at a time strictly
    before [now e0 + cacheDuration] returns [v] and leaves the world as it
    is (no fetch); at [now e0 + cacheDuration] or later it fetches again. *)
Theorem ttl_window (r : Resource) (e0 e1 : Env) (w0 : World) values :
  isFresh r e0 (sheetService w0) = false →
  values_get e0 (rangeOf r) = Resolved values →
  let v := (get r e0 w0).1 in
  let w1 := (get r e0 w0).2 in
  if (now e1 <? now e0 + cacheDuration (sheetService w0))%Z
  then get r e1 w1 = (v, w1)
  else fetched r w1 (get r e1 w1).2.
Proof.
  intros Hf Hv v w1.
  destruct (get_refresh r e0 w0 values Hf Hv) as (Hc & Hl & Hd).
  fold w1 in Hc, Hl, Hd. fold v in Hc.
  destruct (now e1 <? now e0 + cacheDuration (sheetService w0))%Z eqn:Hlt.
  - apply Z.ltb_lt in Hlt. apply get_hit; [done|]. rewrite Hl, Hd. done.
  - apply Z.ltb_ge in Hlt. apply get_miss. unfold isFresh. rewrite Hc.
    apply Z.ltb_ge. lia.
Qed.

(** The flows fetched at time 1000 with the five minutes of the constructor:
    served from the cache at 300999, fetched again at 301000. *)
Lemma ttl_window_witness :
  let e0 := sheetEnv 1000 flowRows promptRows [] in
  let w1 := (get Flows e0 initialWorld).2 in
  get Flows (sheetEnv 300999 [] [] []) w1 = ((get Flows e0 initialWorld).1, w1)
  ∧ fetched Flows w1 (get Flows (sheetEnv 301000 [] [] []) w1).2.
Proof.
  split.
  - exact (ttl_window Flows (sheetEnv 1000 flowRows promptRows [])
             (sheetEnv 300999 [] [] []) initialWorld (Some flowRows)
             eq_refl eq_refl).
  - exact (ttl_window Flows (sheetEnv 1000 flowRows promptRows [])
             (sheetEnv 301000 [] [] []) initialWorld (Some flowRows)
             eq_refl eq_refl).
Defined.

(** C2.  For each of the three resources: when a [get] has to fetch and the
    call to the sheet is rejected, the service keeps every field (the cached
    value and its time stamp among them), every object on the heap keeps its
    contents, the one call made is the fetch, and the caller gets the
    fallback: [[]] for flows and scheduled messages, a new empty object for
    prompts.  The getters are total: nothing is thrown to the caller. *)
Theorem fetch_failure (r : Resource) (e : Env) (w : World) :
  isFresh r e (sheetService w) = false →
  values_get e (rangeOf r) = Rejected →
  let v := (get r e w).1 in
  let w' := (get r e w).2 in
  sheetService w' = sheetService w
  ∧ groqService w' = groqService w
  ∧ (∀ l o, heap w !! l = Some o → heap w' !! l = Some o)
  ∧ fetched r w w'
  ∧ isFallback r v w'.
Proof.
  unfold isFresh, fetched. intros Hf Hv.
  destruct r; simpl in *; run.
  - destruct (flowsCache (sheetService w)); simpl in *; rewrite ?Hf, Hv; done.
  - destruct (promptsCache (sheetService w)); simpl in *; rewrite ?Hf, Hv; simpl;
      (split_and!; [done|done| |done|]);
      try (intros l o Hl; by apply lookup_app_l_Some);
      by rewrite lookup_app_r, Nat.sub_diag.
  - destruct (scheduledMessagesCache (sheetService w)); simpl in *;
      rewrite ?Hf, Hv; done.
Qed.

(** The prompts cached at time 1000, then a rejected refresh at 400000. *)
Lemma fetch_failure_witness :
  let w1 := (get Prompts (sheetEnv 1000 flowRows promptRows []) initialWorld).2 in
  let w2 := (get Prompts (offlineEnv 400000) w1).2 in
  sheetService w2 = sheetService w1
  ∧ groqService w2 = groqService w1
  ∧ (∀ l o, heap w1 !! l = Some o → heap w2 !! l = Some o)
  ∧ fetched Prompts w1 w2
  ∧ isFallback Prompts (get Prompts (offlineEnv 400000) w1).1 w2.
Proof.
  exact (fetch_failure Prompts (offlineEnv 400000)
           (get Prompts (sheetEnv 1000 flowRows promptRows []) initialWorld).2
           eq_refl eq_refl).
Defined.

Lemma getFlows_hit e w :
  isFresh Flows e (sheetService w) = true →
  ∃ v, flowsCache (sheetService w) = Some v ∧ getFlows e w = (v, w).
Proof.
  unfold isFresh. run. simpl.
  destruct (flowsCache (sheetService w)) as [v|]; simpl; [|done].
  intros ->. by exists v.
Qed.

(** C3.  [updateMessageStatus] makes one call, the write of the status
    cell, and returns [true] exactly when it resolves.  Then the scheduled
    messages cache is [null], so that the next [getScheduledMessages]
    fetches whatever the clock says; when the write is rejected the service
    is left as it was.  In both cases the caches and time stamps of flows and
    prompts, the cache duration and the objects on the heap are untouched,
    and a [getFlows] that was fresh before the write returns the same cached
    flows after it, without a call. *)
Theorem updateMessageStatus_effect (e : Env) (rowIndex : N)
    (newStatus : jsstring) (w : World) :
  let written := match values_update e (statusCell rowIndex) newStatus with
                 | Resolved _ => true
                 | Rejected => false
                 end in
  let ok := (updateMessageStatus e rowIndex newStatus w).1 in
  let w' := (updateMessageStatus e rowIndex newStatus w).2 in
  ok = written
  ∧ calls w' = calls w ++ [SheetsValuesUpdate (statusCell rowIndex) newStatus]
  ∧ (if ok
     then scheduledMessagesCache (sheetService w') = None
          ∧ (∀ e', fetched ScheduledMessages w' (get ScheduledMessages e' w').2)
     else sheetService w' = sheetService w)
  ∧ (∀ r, r ≠ ScheduledMessages →
       cached r (sheetService w') = cached r (sheetService w)
       ∧ lastFetch r (sheetService w') = lastFetch r (sheetService w))
  ∧ cacheDuration (sheetService w') = cacheDuration (sheetService w)
  ∧ heap w' = heap w
  ∧ groqService w' = groqService w
  ∧ (∀ e', isFresh Flows e' (sheetService w) = true →
       (getFlows e' w').1 = (getFlows e' w).1
       ∧ flowsCache (sheetService w) = Some (getFlows e' w').1
       ∧ calls (getFlows e' w').2 = calls w').
Proof.
  intros written ok w'. subst written ok w'.
  unfold updateMessageStatus, mbind, M_bind, mret, M_ret, call, modify_sheets.
  destruct (values_update e (statusCell rowIndex) newStatus) as [|u]; simpl.
  - split_and!; try done. intros e' He'.
    destruct (getFlows_hit e' w He') as (v & Hv & ->).
    edestruct (getFlows_hit e') as (v' & Hv' & ->); [exact He'|].
    simpl in *. by simplify_eq.
  - split_and!; try done.
    + intros e'. apply (get_miss ScheduledMessages). done.
    + by intros [] Hr.
    + intros e' He'.
      destruct (getFlows_hit e' w He') as (v & Hv & ->).
      edestruct (getFlows_hit e') as (v' & Hv' & ->); [exact He'|].
      simpl in *. by simplify_eq.
Qed.

(** ** The flow matcher *)

Example matchKeyword_tiers :
  matchKeyword (js "hola") (js "hola") = Some Exact
  ∧ matchKeyword (js "hola buenos dias") (js "hola") = Some WholeWord
  ∧ matchKeyword (js "holas") (js "hola") = Some Partial
  ∧ matchKeyword (js "adios") (js "hola") = None
  ∧ matchKeyword (js "hola") [] = None.
Proof. repeat split; vm_compute; reflexivity. Qed.

Lemma matchKeyword_hits msg keyword :
  is_Some (matchKeyword msg keyword) ↔ keywordHits msg keyword.
Proof.
  unfold matchKeyword, keywordHits.
  destruct keyword as [|c k].
  { split; [by intros [? ?]|by intros [? _]]. }
  destruct (decide (msg = c :: k)) as [->|Hne].
  { split; [|by eauto]. intros _. split; [done|by left]. }
  destruct (regexWord_test (c :: k) msg).
  { split; [|by eauto]. intros _. split; [done|]. right. by left. }
  destruct (includes msg (c :: k)).
  { split; [|by eauto]. intros _. split; [done|]. right. by right. }
  split; [by intros [? ?]|]. intros [_ [?|[?|?]]]; done.
Qed.

Lemma matchKeywords_hits msg keywords :
  is_Some (matchKeywords msg keywords)
  ↔ ∃ keyword, In keyword keywords ∧ keywordHits msg keyword.
Proof.
  induction keywords as [|k ks IH]; simpl.
  { split; [by intros [? ?]|by intros (? & [] & _)]. }
  pose proof (matchKeyword_hits msg k) as Hk.
  destruct (matchKeyword msg k) as [t|].
  - split; [|by eauto]. intros _. exists k. split; [by left|]. apply Hk. by eauto.
  - rewrite IH. split.
    + intros (k' & Hin & Hh). exists k'. by auto.
    + intros (k' & [<-|Hin] & Hh); [|by eauto].
      apply Hk in Hh. by destruct Hh.
Qed.

Section MatcherFacts.
Context `{B : StringBuiltins}.

(** The flow returned matches, and no flow before it does. *)
Lemma matchFlows_Some msg flows flow :
  matchFlows msg flows = Some flow →
  ∃ before after,
    flows = before ++ flow :: after
    ∧ flowMatches msg flow
    ∧ Forall (λ f, ¬ flowMatches msg f) before.
Proof.
  induction flows as [|f flows IH]; simpl; [done|].
  pose proof (matchKeywords_hits msg (keywordsOf f)) as Hf.
  destruct (matchKeywords msg (keywordsOf f)) as [t|].
  - intros [= <-]. exists [], flows. split_and!; [done| |done].
    apply Hf. by eauto.
  - intros (before & after & -> & Hm & Hb)%IH.
    exists (f :: before), after. split_and!; [done|done|].
    constructor; [|done]. intros Hm'%Hf. by destruct Hm'.
Qed.

(** [null] is returned exactly when no flow matches. *)
Lemma matchFlows_None msg flows :
  matchFlows msg flows = None ↔ Forall (λ f, ¬ flowMatches msg f) flows.
Proof.
  induction flows as [|f flows IH]; simpl; [done|].
  pose proof (matchKeywords_hits msg (keywordsOf f)) as Hf.
  destruct (matchKeywords msg (keywordsOf f)) as [t|].
  - split; [done|]. intros [Hn _]%Forall_cons. destruct Hn. apply Hf. by eauto.
  - rewrite IH, Forall_cons. split; [|tauto]. intros Hr. split; [|done].
    intros Hm%Hf. by destruct Hm.
Qed.

Lemma findFlowAnswer_matchFlows e userMessage w :
  findFlowAnswer e userMessage w
  = (matchFlows (normalizeText userMessage) (getFlows e w).1,
     (getFlows e w).2).
Proof.
  unfold findFlowAnswer, mbind, M_bind, mret, M_ret.
  by destruct (getFlows e w).
Qed.
End MatcherFacts.

(** C4.  First match wins, in the order of the flow table.  Whatever the
    tables of the platform: when [findFlowAnswer] returns a flow, the flows
    [getFlows] gave split around it, it has a keyword that satisfies a tier,
    and no flow before it has one; when it returns [null], no flow of the
    table has one.  With the flows "hola" and "hola buenos dias" and the
    message "hola buenos dias" the first flow is returned, whatever the
    answers and media of the two flows are, and so it is when the two flows
    come from the sheet. *)
Theorem first_match_wins :
  (∀ (B : StringBuiltins) (e : Env) (userMessage : jsstring) (w : World),
     let msg := normalizeText (B := B) userMessage in
     let flows := (getFlows e w).1 in
     match (findFlowAnswer (B := B) e userMessage w).1 with
     | Some flow =>
         ∃ before after,
           flows = before ++ flow :: after
           ∧ flowMatches (B := B) msg flow
           ∧ Forall (λ f, ¬ flowMatches (B := B) msg f) before
     | None => Forall (λ f, ¬ flowMatches (B := B) msg f) flows
     end)
  ∧ (∀ answer1 media1 answer2 media2,
       matchFlows (B := Latin1.builtins)
         (normalizeText (B := Latin1.builtins) (js "hola buenos dias"))
         [ {| addKeyword := Some (js "hola");
              addAnswer := answer1; media := media1 |};
           {| addKeyword := Some (js "hola buenos dias");
              addAnswer := answer2; media := media2 |} ]
       = Some {| addKeyword := Some (js "hola");
                 addAnswer := answer1; media := media1 |})
  ∧ (findFlowAnswer (B := Latin1.builtins) (sheetEnv 1000 flowRows [] [])
       (js "hola buenos dias") initialWorld).1
    = Some {| addKeyword := Some (js "hola");
              addAnswer := Some (js "Bienvenido"); media := None |}.
Proof.
  split_and!.
  - intros B e userMessage w msg flows.
    rewrite findFlowAnswer_matchFlows. cbn [fst]. fold msg flows.
    destruct (matchFlows msg flows) as [flow|] eqn:Hm.
    + by apply matchFlows_Some.
    + by apply matchFlows_None.
  - intros. vm_compute. reflexivity.
  - vm_compute. reflexivity.
Qed.

(** ** Prompt parsing *)

Lemma setProperty_lookup k v o key :
  setProperty k v o !! key
  = if decide (k = key ∧ k ≠ js "__proto__") then Some v else o !! key.
Proof.
  unfold setProperty. destruct (decide (k = js "__proto__")) as [->|Hk].
  - by rewrite decide_False by tauto.
  - rewrite lookup_insert. destruct (decide (k = key)) as [->|Hne].
    + by rewrite decide_True.
    + by rewrite decide_False by tauto.
Qed.

Lemma fold_addPromptRow_lookup rows acc key :
  fold_left addPromptRow rows acc !! key
  = if decide (key = js "__proto__") then acc !! key
    else match lastBinding key rows with
         | Some value => Some (VStr value)
         | None => acc !! key
         end.
Proof.
  revert acc. induction rows as [|row rows IH]; intros acc; simpl.
  { by destruct (decide _). }
  rewrite IH. destruct (decide (key = js "__proto__")) as [->|Hkey].
  - unfold addPromptRow. destruct (cell row 1), (cell row 2); try done.
    rewrite setProperty_lookup. by rewrite decide_False by tauto.
  - destruct (lastBinding key rows); [done|].
    unfold addPromptRow.
    destruct (cell row 1) as [k|], (cell row 2) as [v|]; try done.
    rewrite setProperty_lookup. destruct (decide (k = key)) as [->|Hne].
    + by rewrite decide_True.
    + by rewrite decide_False by tauto.
Qed.

Lemma seedPrompt_lookup rows key :
  seedPrompt rows !! key
  = if decide (key = js "system_prompt")
    then VStr <$> (head rows ≫= λ row, cell row 0)
    else None.
Proof.
  unfold seedPrompt. destruct rows as [|row0 rows]; simpl.
  { rewrite lookup_empty. by destruct (decide _). }
  destruct (cell row0 0) as [p|]; simpl.
  - rewrite setProperty_lookup.
    destruct (decide (key = js "system_prompt")) as [->|Hne].
    + by rewrite decide_True.
    + rewrite decide_False; [done|]. intros [? _]. done.
  - rewrite lookup_empty. by destruct (decide _).
Qed.

(** C5, as the code has it.  What the settings object holds under a key is
    decided by all the rows, the first one included: it is the third cell of
    the last row whose second cell is the key (both cells there and not
    empty); failing such a row, [system_prompt] holds the first cell of the
    first row when that cell is there, and any other key holds nothing.  No
    entry is ever made under [__proto__]. *)
Theorem parsePrompts_lookup (rows : list (list jsstring)) (key : jsstring) :
  parsePrompts rows !! key
  = if decide (key = js "__proto__") then None
    else match lastBinding key rows with
         | Some value => Some (VStr value)
         | None =>
             if decide (key = js "system_prompt")
             then VStr <$> (head rows ≫= λ row, cell row 0)
             else None
         end.
Proof.
  unfold parsePrompts. rewrite fold_addPromptRow_lookup, seedPrompt_lookup.
  destruct (decide (key = js "__proto__")) as [->|?]; [|done].
  by rewrite decide_False.
Qed.

(** The entry under a key, from the two lemmas above. *)
Lemma parsePrompts_entry rows key :
  parsePrompts rows !! key
  = if decide (key = js "__proto__") then None
    else match lastBinding key rows with
         | Some value => Some (VStr value)
         | None =>
             if decide (key = js "system_prompt")
             then VStr <$> (head rows ≫= λ row, cell row 0)
             else None
         end.
Proof.
  unfold parsePrompts. rewrite fold_addPromptRow_lookup, seedPrompt_lookup.
  destruct (decide (key = js "__proto__")) as [->|?]; [|done].
  by rewrite decide_False.
Qed.

(** Every value of the object a refresh builds is a string. *)
Lemma parsePrompts_strings rows key v :
  parsePrompts rows !! key = Some v → ∃ s, v = VStr s.
Proof.
  rewrite parsePrompts_entry.
  destruct (decide (key = js "__proto__")); [done|].
  destruct (lastBinding key rows) as [value|]; [intros [= <-]; by eexists|].
  destruct (decide (key = js "system_prompt")); [|done].
  destruct (head rows ≫= λ row, cell row 0) as [p|]; simpl; [|done].
  intros [= <-]. by eexists.
Qed.

(** A sheet of one row: its second and third cells make an entry, which the
    rows after the first (there are none) cannot account for. *)
Lemma parsePrompts_first_row_contributes :
  let rows := [[js "Eres un bot"; js "temperature"; js "0.7"]] in
  parsePrompts rows !! js "temperature" = Some (VStr (js "0.7"))
  ∧ fold_left addPromptRow (tail rows) (seedPrompt rows) !! js "temperature"
    = None.
Proof. cbv zeta. split; vm_compute; reflexivity. Qed.

(** ** Coercion of the settings *)

Example stringToNumber_examples :
  stringToNumber (js "  ") = Finite false 0
  ∧ stringToNumber (js "0x1F") = Finite false (Qmake 31 1)
  ∧ stringToNumber (js " 1e3 ") = Finite false (Qmake 1000 1)
  ∧ stringToNumber (js "-.5") = Finite true (Qmake 1 2)
  ∧ stringToNumber (js "5.") = Finite false (Qmake 5 1)
  ∧ stringToNumber (js ".") = NaN
  ∧ stringToNumber (js "-Infinity") = Infinity true
  ∧ stringToNumber (js "12px") = NaN
  ∧ stringToNumber (js "1e") = NaN
  ∧ stringToNumber (js "-0x10") = NaN
  ∧ stringToNumber (js "0.7") = Finite false (Qmake 7 10).
Proof. repeat split; vm_compute; reflexivity. Qed.

Lemma coerceProperty_lookup o k key :
  coerceProperty o k !! key
  = if decide (k = key) then coerce <$> o !! key else o !! key.
Proof.
  unfold coerceProperty, coerce. destruct (decide (k = key)) as [->|Hne].
  - destruct (o !! key) as [v|] eqn:Hv; [|by rewrite Hv].
    simpl. destruct (isNaN v); [by rewrite Hv|]. by rewrite lookup_insert_eq.
  - destruct (o !! k) as [v|]; [|done].
    destruct (isNaN v); [done|]. by rewrite lookup_insert_ne.
Qed.

Lemma foldl_coerceProperty_lookup keys o key :
  NoDup keys →
  foldl coerceProperty o keys !! key
  = if decide (key ∈ keys) then coerce <$> o !! key else o !! key.
Proof.
  intros Hnd. revert o. induction Hnd as [|k keys Hk Hnd IH]; intros o; simpl.
  { destruct (decide (key ∈ [])) as [Hin|]; [|done]. by apply elem_of_nil in Hin. }
  rewrite IH, coerceProperty_lookup.
  destruct (decide (k = key)) as [->|Hne].
  - destruct (decide (key ∈ keys)); [done|].
    destruct (decide (key ∈ key :: keys)) as [|Hnin]; [done|].
    destruct Hnin. apply list_elem_of_here.
  - destruct (decide (key ∈ keys)) as [Hin|Hnin];
      destruct (decide (key ∈ k :: keys)) as [Hin'|Hnin']; try done.
    + destruct Hnin'. by apply list_elem_of_further.
    + apply elem_of_cons in Hin' as [?|?]; done.
Qed.

(** The loop coerces every value once, whatever the order of the keys. *)
Lemma coerceSettings_fmap (o : Obj) : coerceSettings o = coerce <$> o.
Proof.
  apply map_eq. intros key. unfold coerceSettings.
  rewrite foldl_coerceProperty_lookup by apply NoDup_fst_map_to_list.
  rewrite lookup_fmap. destruct (decide _) as [Hin|Hnin]; [done|].
  destruct (o !! key) as [v|] eqn:Hv; [|done].
  destruct Hnin. apply list_elem_of_fmap. exists (key, v). split; [done|].
  by apply elem_of_map_to_list.
Qed.

Lemma loadSettings_unfold e w :
  loadSettings e w =
  let l := (getPrompts e w).1 in
  let w1 := (getPrompts e w).2 in
  (tt, {| sheetService := sheetService w1;
          groqService := {| settings := Some l |};
          heap := <[l := coerceSettings (default ∅ (heap w1 !! l))]> (heap w1);
          calls := calls w1 |}).
Proof.
  unfold loadSettings, mbind, M_bind, load, store, set_settings.
  by destruct (getPrompts e w).
Qed.

(** C7.  After [loadSettings], [this.settings] is the object [getPrompts]
    returned, and under every key it holds the coerced form of what
    [getPrompts] left there.  A string is coerced to a number exactly when
    the string-to-number conversion of the language accepts it whole (white
    space around the literal is allowed, and a string of white space alone
    is 0); a string it rejects stays the string it was.  So "42" becomes 42,
    "3.5" becomes 3.5 and "abc" stays "abc".  What a refresh of the prompts
    puts under a key is always a string, the raw text of the cell. *)
Theorem settings_coercion :
  (∀ rows key v, parsePrompts rows !! key = Some v → ∃ s, v = VStr s)
  ∧ (∀ (e : Env) (w : World),
     let l := (getPrompts e w).1 in
     let w1 := (getPrompts e w).2 in
     let w2 := (loadSettings e w).2 in
     settings (groqService w2) = Some l
     ∧ ∀ key,
         heap w2 !! l ≫= (.!! key) = coerce <$> (heap w1 !! l ≫= (.!! key)))
  ∧ (∀ s, coerce (VStr s) = match stringToNumber s with
                            | NaN => VStr s
                            | n => VNum n
                            end)
  ∧ coerce (VStr (js "42")) = VNum (Finite false (Qmake 42 1))
  ∧ coerce (VStr (js "3.5")) = VNum (Finite false (Qmake 7 2))
  ∧ coerce (VStr (js "abc")) = VStr (js "abc").
Proof.
  split_and!.
  - apply parsePrompts_strings.
  - intros e w l w1 w2. subst w2. rewrite loadSettings_unfold. fold l w1.
    cbn [snd groqService settings heap]. split; [done|]. intros key.
    destruct (heap w1 !! l) as [o|] eqn:Ho; simpl.
    + rewrite list_lookup_insert_eq by (by eapply lookup_lt_Some). simpl.
      by rewrite coerceSettings_fmap, lookup_fmap.
    + rewrite list_insert_ge by (by apply lookup_ge_None). by rewrite Ho.
  - intros s. unfold coerce, isNaN. simpl. by destruct (stringToNumber s).
  - vm_compute. reflexivity.
  - vm_compute. reflexivity.
  - vm_compute. reflexivity.
Qed.

(** ** The settings object and the cache that holds it *)

Lemma getPrompts_hit e w :
  isFresh Prompts e (sheetService w) = true →
  ∃ l, promptsCache (sheetService w) = Some l ∧ getPrompts e w = (l, w).
Proof.
  unfold isFresh. run. simpl.
  destruct (promptsCache (sheetService w)) as [l|]; simpl; [|done].
  intros ->. by exists l.
Qed.

Lemma getPrompts_refresh e w values :
  isFresh Prompts e (sheetService w) = false →
  values_get e promptsRange = Resolved values →
  getPrompts e w =
    (length (heap w),
     {| sheetService :=
          set_lastPromptsFetch (now e)
            (set_promptsCache (Some (length (heap w))) (sheetService w));
        groqService := groqService w;
        heap := heap w ++ [parsePrompts (default [] values)];
        calls := calls w ++ [SheetsValuesGet promptsRange] |}).
Proof.
  unfold isFresh. run. simpl. intros Hf Hv.
  destruct (promptsCache (sheetService w)); simpl in *; rewrite ?Hf, Hv; done.
Qed.

(** C8, as the code has it.  A refresh of the prompts puts a new object on
    the heap, holding the cells as the strings they are (no coercion), and
    caches the reference to it; a read that hits the cache returns that
    reference and changes nothing.  [loadSettings] then coerces the entries
    of the object [getPrompts] returned, in place: on a hit that object is
    the one the cache holds.  [getFlows], [getScheduledMessages],
    [updateMessageStatus] and [invalidateCache] change no object. *)
Theorem settings_object_lifecycle (e : Env) (w : World) :
  (∀ values,
     isFresh Prompts e (sheetService w) = false →
     values_get e promptsRange = Resolved values →
     (getPrompts e w).1 = length (heap w)
     ∧ promptsCache (sheetService (getPrompts e w).2) = Some (length (heap w))
     ∧ heap (getPrompts e w).2 = heap w ++ [parsePrompts (default [] values)])
  ∧ (isFresh Prompts e (sheetService w) = true →
     promptsCache (sheetService w) = Some (getPrompts e w).1
     ∧ (getPrompts e w).2 = w)
  ∧ (let l := (getPrompts e w).1 in
     let w1 := (getPrompts e w).2 in
     let w2 := (loadSettings e w).2 in
     heap w2 = <[l := coerceSettings (default ∅ (heap w1 !! l))]> (heap w1)
     ∧ sheetService w2 = sheetService w1
     ∧ settings (groqService w2) = Some l)
  ∧ heap (getFlows e w).2 = heap w
  ∧ heap (getScheduledMessages e w).2 = heap w
  ∧ (∀ rowIndex newStatus,
       heap (updateMessageStatus e rowIndex newStatus w).2 = heap w)
  ∧ heap (invalidateCache w).2 = heap w.
Proof.
  split_and!.
  - intros values Hf Hv. by rewrite (getPrompts_refresh e w values Hf Hv).
  - intros (l & Hl & ->)%getPrompts_hit. done.
  - by rewrite loadSettings_unfold.
  - run. destruct (flowsCache (sheetService w)); simpl;
      [destruct (_ <? _)%Z; simpl; [done|]|];
      by destruct (values_get e flowsRange).
  - run. destruct (scheduledMessagesCache (sheetService w)); simpl;
      [destruct (_ <? _)%Z; simpl; [done|]|];
      by destruct (values_get e scheduledRange).
  - intros rowIndex newStatus. run.
    by destruct (values_update e (statusCell rowIndex) newStatus).
  - done.
Qed.

(** The prompts are fetched at time 1000 and cached as object 0, whose
    [temperature] is the string "42".  A [loadSettings] at time 2000 hits the
    cache: no call is made, the cache field and its time stamp stay, and
    yet the cached object now holds the number 42 under [temperature]. *)
Lemma cached_settings_mutated :
  let w1 := (getPrompts (sheetEnv 1000 flowRows promptRows []) initialWorld).2 in
  let w2 := (loadSettings (sheetEnv 2000 [] [] []) w1).2 in
  promptsCache (sheetService w1) = Some 0%nat
  ∧ heap w1 !! 0%nat ≫= (.!! js "temperature") = Some (VStr (js "42"))
  ∧ promptsCache (sheetService w2) = Some 0%nat
  ∧ lastPromptsFetch (sheetService w2) = lastPromptsFetch (sheetService w1)
  ∧ calls w2 = calls w1
  ∧ heap w2 !! 0%nat ≫= (.!! js "temperature")
    = Some (VNum (Finite false (Qmake 42 1))).
Proof. cbv zeta. repeat split; vm_compute; reflexivity. Qed.

(** ** The AI path *)

Lemma getPrompts_calls e w :
  ∃ made, calls (getPrompts e w).2 = calls w ++ made
          ∧ forallb (λ c, negb (isCompletion c)) made = true.
Proof.
  assert (∃ made, calls w = calls w ++ made
                  ∧ forallb (λ c, negb (isCompletion c)) made = true) as Hhit.
  { exists []. by rewrite app_nil_r. }
  run.
  destruct (promptsCache (sheetService w)); simpl;
    [destruct (_ <? _)%Z; simpl; [done|]|];
    destruct (values_get e promptsRange); simpl;
    by exists [SheetsValuesGet promptsRange].
Qed.

(** The [try] block of [getResponse], once the calls made so far are known
    to be [made]. *)
Ltac answer_empty made Hc Hm :=
  match goal with
  | |- context [match ?phoneNumber with Some _ => _ | None => _ end] =>
      destruct phoneNumber as [[|?c ?p]|]; simpl;
      repeat match goal with
      | |- context [match getContextForAI ?e ?p with _ => _ end] =>
          destruct (getContextForAI e p); simpl
      | |- context [match saveMessage ?e ?p ?r ?c with _ => _ end] =>
          destruct (saveMessage e p r c); simpl
      end;
      (split; [done|]);
      first [ by exists made
            | eexists (made ++ [_]);
              rewrite Hc, <- ?app_assoc, forallb_app, Hm; done
            | eexists (made ++ [_; _]);
              rewrite Hc, <- ?app_assoc, forallb_app, Hm; done
            | eexists (made ++ [_; _; _]);
              rewrite Hc, <- ?app_assoc, forallb_app, Hm; done ]
  end.

(** C10, on the code.  [getResponse] returns the empty string whatever the
    input, the settings and the answers of the outside are, and none of the
    calls it makes is a call to the completion service. *)
Theorem getResponse_answers_empty (e : Env) (userInput : jsstring)
    (phoneNumber : option jsstring) (w : World) :
  (getResponse e userInput phoneNumber w).1 = []
  ∧ ∃ made,
      calls (getResponse e userInput phoneNumber w).2 = calls w ++ made
      ∧ forallb (λ c, negb (isCompletion c)) made = true.
Proof.
  unfold getResponse, mbind, M_bind, mret, M_ret, this_groq, load, call.
  destruct (settings (groqService w)).
  - assert (calls w = calls w ++ []) as Hc by (by rewrite app_nil_r).
    assert (forallb (λ c, negb (isCompletion c)) [] = true) as Hm by done.
    cbv beta iota. answer_empty (@nil Call) Hc Hm.
  - rewrite loadSettings_unfold. cbv zeta beta iota.
    destruct (getPrompts_calls e w) as (made & Hc & Hm).
    cbn [heap calls sheetService groqService settings].
    answer_empty made Hc Hm.
Qed.

(** * Further properties of the code *)

(** ** The normaliser and the matcher, further *)

(** X1.  Whatever the tables of the platform are, the output of
    [normalizeText] is made of [a-z], [0-9] and white space only (so it has
    no capital letter and no combining mark), and it neither starts nor ends
    with white space. *)
Theorem normalizeText_canonical_form `{B : StringBuiltins} (text : jsstring) :
  forallb isKept (normalizeText text) = true
  ∧ forallb (λ c, negb (isUpperAlpha c) && negb (isCombiningMark c))
      (normalizeText text) = true
  ∧ trimStart (normalizeText text) = normalizeText text
  ∧ trimEnd (normalizeText text) = normalizeText text.
Proof.
  split_and!.
  - apply normalizeText_kept.
  - apply forallb_forall. intros c Hc.
    pose proof (normalizeText_kept text) as Hk.
    eapply forallb_forall in Hk; [|done].
    rewrite (kept_not_mark c Hk), andb_true_r.
    destruct (isUpperAlpha c) eqn:Hu; [|done]. exfalso. class_prop. lia.
  - apply trim_trimStart.
  - unfold normalizeText, trim. apply trimEnd_idem.
Qed.

Lemma split_nonempty sep s : split sep s ≠ [].
Proof.
  destruct s as [|c s]; simpl; [done|].
  destruct (c =? sep); [done|]. by destruct (split sep s).
Qed.

(** X2.  Splitting the keyword cell loses nothing: the pieces joined with
    the separator are the cell again, no piece holds the separator, and
    there is one piece more than there are separators in the cell. *)
Theorem split_join (sep : N) (s : jsstring) :
  join sep (split sep s) = s
  ∧ Forall (λ piece, ¬ In sep piece) (split sep s)
  ∧ length (split sep s) = S (length (List.filter (N.eqb sep) s)).
Proof.
  induction s as [|c s (IHj & IHf & IHl)]; simpl.
  { split_and!; [done| |done]. constructor; [by intros []|done]. }
  pose proof (split_nonempty sep s) as Hne.
  rewrite (N.eqb_sym sep c).
  destruct (c =? sep) eqn:Hc.
  - apply N.eqb_eq in Hc as ->. split_and!.
    + destruct (split sep s) as [|p ps]; [done|]. simpl in *. by rewrite IHj.
    + constructor; [by intros []|done].
    + simpl. by rewrite IHl.
  - apply N.eqb_neq in Hc.
    destruct (split sep s) as [|p ps]; [done|]. split_and!.
    + destruct ps as [|p' ps]; simpl in *; by rewrite <- IHj.
    + apply Forall_cons in IHf as [Hp Hps]. constructor; [|done].
      intros [?|?]; [by subst|done].
    + done.
Qed.

(** On the alphabet of the normaliser two code units with the same
    canonical form are the same. *)
Lemma canonicalize_inj a b :
  isKept a = true → isKept b = true →
  canonicalize a = canonicalize b → a = b.
Proof.
  unfold canonicalize. intros Ha Hb.
  destruct (isLowerAlpha a) eqn:Hla, (isLowerAlpha b) eqn:Hlb; intros Heq;
    class_prop; lia.
Qed.

Lemma matchLiteral_startsWith before k s r :
  forallb isKept k = true → forallb isKept s = true →
  matchLiteral before k s = Some r → startsWith k s = true.
Proof.
  revert before s. induction k as [|a k IH]; intros before s Hk Hs; simpl; [done|].
  destruct s as [|b s]; [done|]. simpl in Hk, Hs.
  apply andb_true_iff in Hk as [Ha Hk]. apply andb_true_iff in Hs as [Hb Hs].
  destruct (canonicalize a =? canonicalize b) eqn:Hab; [|done].
  apply N.eqb_eq in Hab. apply canonicalize_inj in Hab as ->; [|done..].
  intros Hm. rewrite N.eqb_refl. simpl. by eapply IH.
Qed.

(** A whole-word match is an occurrence. *)
Lemma matchWordFrom_includes before k s :
  forallb isKept k = true → forallb isKept s = true →
  matchWordFrom before k s = true → includes s k = true.
Proof.
  intros Hk. revert before. induction s as [|c s IH]; intros before Hs; simpl.
  - rewrite !orb_false_r. unfold matchWordHere.
    intros [_ Hm]%andb_true_iff.
    destruct (matchLiteral before k []) as [r|] eqn:Hr; [|done].
    by eapply matchLiteral_startsWith.
  - simpl in Hs. apply andb_true_iff in Hs as [Hc Hs].
    intros [Hh|Hf]%orb_true_iff; apply orb_true_iff.
    + left. unfold matchWordHere in Hh. apply andb_true_iff in Hh as [_ Hm].
      destruct (matchLiteral before k (c :: s)) as [r|] eqn:Hr; [|done].
      eapply (matchLiteral_startsWith before k (c :: s)); [done| |done].
      simpl. by rewrite Hc.
    + right. by eapply IH.
Qed.

Lemma startsWith_refl k : startsWith k k = true.
Proof. induction k as [|a k IH]; simpl; [done|]. by rewrite N.eqb_refl. Qed.

Lemma includes_refl k : includes k k = true.
Proof. destruct k; simpl; [done|]. by rewrite N.eqb_refl, startsWith_refl. Qed.

Lemma matchKeyword_included msg keyword :
  forallb isKept msg = true → forallb isKept keyword = true →
  is_Some (matchKeyword msg keyword) ↔ keywordIncluded msg keyword = true.
Proof.
  intros Hm Hk. rewrite matchKeyword_hits. unfold keywordHits, keywordIncluded.
  destruct keyword as [|c k].
  { split; [by intros [? _]|done]. }
  split.
  - intros [_ [->|[Hw|Hi]]]; [apply includes_refl| |done].
    by eapply matchWordFrom_includes.
  - intros Hi. split; [done|]. by right; right.
Qed.

Lemma matchKeywords_included msg keywords :
  forallb isKept msg = true →
  Forall (λ k, forallb isKept k = true) keywords →
  is_Some (matchKeywords msg keywords)
  ↔ existsb (keywordIncluded msg) keywords = true.
Proof.
  intros Hm Hks. induction Hks as [|k ks Hk Hks IH]; simpl.
  { split; [by intros [? ?]|done]. }
  pose proof (matchKeyword_included msg k Hm Hk) as Hone.
  destruct (matchKeyword msg k) as [t|].
  - split; [|by eauto]. intros _. apply orb_true_iff. left. apply Hone. by eauto.
  - rewrite IH, orb_true_iff. split; [by right|].
    intros [Hi|?]; [|done]. apply Hone in Hi. by destruct Hi.
Qed.

Lemma matchKeywords_empty_message keywords : matchKeywords [] keywords = None.
Proof.
  induction keywords as [|k ks IH]; simpl; [done|].
  by destruct k.
Qed.

Lemma getFlows_rejected e w :
  isFresh Flows e (sheetService w) = false →
  values_get e flowsRange = Rejected →
  getFlows e w =
    ([], {| sheetService := sheetService w; groqService := groqService w;
            heap := heap w;
            calls := calls w ++ [SheetsValuesGet flowsRange] |}).
Proof.
  unfold isFresh. run. simpl. intros Hf Hv.
  destruct (flowsCache (sheetService w)); simpl in *; rewrite ?Hf, Hv; done.
Qed.

Section MatcherFurther.
Context `{B : StringBuiltins}.

Lemma keywordsOf_kept flow :
  Forall (λ k, forallb isKept k = true) (keywordsOf flow).
Proof.
  unfold keywordsOf. apply Forall_forall. intros k Hk.
  apply list_elem_of_In, in_map_iff in Hk as (raw & <- & _).
  apply normalizeText_kept.
Qed.

Lemma matchFlows_find msg flows :
  forallb isKept msg = true →
  matchFlows msg flows = List.find (flowIncluded msg) flows.
Proof.
  intros Hm. induction flows as [|f flows IH]; simpl; [done|].
  pose proof (matchKeywords_included msg (keywordsOf f) Hm (keywordsOf_kept f))
    as Hf.
  unfold flowIncluded at 1.
  destruct (matchKeywords msg (keywordsOf f)) as [t|].
  - destruct Hf as [-> _]; [by eauto|done].
  - destruct (existsb _ _); [|done]. destruct Hf as [_ Hf]. by destruct Hf.
Qed.

(** X3.  The three tiers decide nothing about which flow is returned: an
    exact match and a whole-word match are occurrences too, so
    [findFlowAnswer] returns the first flow of the table one of whose
    normalised keywords is not empty and occurs in the normalised
    message. *)
Theorem tiers_reduce_to_substring (e : Env) (userMessage : jsstring)
    (w : World) :
  (findFlowAnswer e userMessage w).1
  = List.find (flowIncluded (normalizeText userMessage)) (getFlows e w).1.
Proof.
  rewrite findFlowAnswer_matchFlows. cbn [fst].
  apply matchFlows_find, normalizeText_kept.
Qed.

Lemma matchFlows_empty_message flows : matchFlows [] flows = None.
Proof.
  induction flows as [|f flows IH]; simpl; [done|].
  by rewrite matchKeywords_empty_message.
Qed.

(** X4.  A message that normalises to the empty string (no letter and no
    digit in it) matches no flow, whatever the table holds. *)
Theorem empty_message_matches_nothing (e : Env) (userMessage : jsstring)
    (w : World) :
  normalizeText userMessage = [] →
  (findFlowAnswer e userMessage w).1 = None.
Proof.
  intros Hn. rewrite findFlowAnswer_matchFlows. cbn [fst]. rewrite Hn.
  apply matchFlows_empty_message.
Qed.

(** X6.  When the flows have to be fetched and the fetch is rejected,
    [findFlowAnswer] returns [null] for every message: an expired table in
    the cache is not matched against, and the service is left as it was. *)
Theorem fetch_failure_matches_nothing (e : Env) (userMessage : jsstring)
    (w : World) :
  isFresh Flows e (sheetService w) = false →
  values_get e flowsRange = Rejected →
  (findFlowAnswer e userMessage w).1 = None
  ∧ sheetService (findFlowAnswer e userMessage w).2 = sheetService w.
Proof.
  intros Hf Hv. rewrite findFlowAnswer_matchFlows.
  by rewrite (getFlows_rejected e w Hf Hv).
Qed.

Context {U : UnicodeFacts}.

Lemma normalizeText_nil : normalizeText [] = [].
Proof.
  unfold normalizeText. rewrite toLowerCase_kept by done.
  by rewrite normalizeNFD_kept.
Qed.

(** X5.  A flow whose keyword cell is missing or empty is never returned:
    the flow [findFlowAnswer] returns has a keyword cell that is not
    empty. *)
Theorem returned_flow_has_keyword (e : Env) (userMessage : jsstring)
    (w : World) (flow : Flow) :
  (findFlowAnswer e userMessage w).1 = Some flow →
  ∃ c keywords, addKeyword flow = Some (c :: keywords).
Proof.
  rewrite findFlowAnswer_matchFlows. cbn [fst].
  intros (_ & _ & _ & (keyword & Hin & Hne & _) & _)%matchFlows_Some.
  unfold keywordsOf in Hin.
  destruct (addKeyword flow) as [[|c kw]|]; [| by eauto |];
    simpl in Hin; rewrite normalizeText_nil in Hin;
    destruct Hin as [<-|[]]; done.
Qed.
End MatcherFurther.

(** The message "?!" against the two flows of the example. *)
Lemma empty_message_matches_nothing_witness :
  (findFlowAnswer (B := Latin1.builtins) (sheetEnv 1000 flowRows [] [])
     (js "?!") initialWorld).1 = None.
Proof.
  exact (empty_message_matches_nothing (B := Latin1.builtins)
           (sheetEnv 1000 flowRows [] []) (js "?!") initialWorld eq_refl).
Defined.

(** The message "Hola!" returns the first flow of the example. *)
Lemma returned_flow_has_keyword_witness :
  ∃ c keywords,
    addKeyword {| addKeyword := Some (js "hola");
                  addAnswer := Some (js "Bienvenido"); media := None |}
    = Some (c :: keywords).
Proof.
  exact (returned_flow_has_keyword (B := Latin1.builtins)
           (U := Latin1Facts.facts)
           (sheetEnv 1000 flowRows [] []) (js "Hola!") initialWorld _ eq_refl).
Defined.

(** The flows cached at time 1000, the sheet unreachable at 400000. *)
Lemma fetch_failure_matches_nothing_witness :
  let w1 := (getFlows (sheetEnv 1000 flowRows [] []) initialWorld).2 in
  (findFlowAnswer (B := Latin1.builtins) (offlineEnv 400000) (js "hola") w1).1
  = None
  ∧ sheetService
      (findFlowAnswer (B := Latin1.builtins) (offlineEnv 400000) (js "hola") w1).2
    = sheetService w1.
Proof.
  exact (fetch_failure_matches_nothing (B := Latin1.builtins)
           (offlineEnv 400000) (js "hola")
           (getFlows (sheetEnv 1000 flowRows [] []) initialWorld).2
           eq_refl eq_refl).
Defined.

(** ** The caches, further *)

Lemma get_rejected_service r e w :
  isFresh r e (sheetService w) = false →
  values_get e (rangeOf r) = Rejected →
  sheetService (get r e w).2 = sheetService w.
Proof.
  unfold isFresh. intros Hf Hv.
  destruct r; simpl in *; run.
  - destruct (flowsCache (sheetService w)); simpl in *; rewrite ?Hf, Hv; done.
  - destruct (promptsCache (sheetService w)); simpl in *; rewrite ?Hf, Hv; done.
  - destruct (scheduledMessagesCache (sheetService w)); simpl in *;
      rewrite ?Hf, Hv; done.
Qed.

(** X7.  A rejected fetch is not remembered: after it, a [get] of the same
    resource at the same or any later time fetches again. *)
Theorem failed_fetch_is_retried (r : Resource) (e e' : Env) (w : World) :
  isFresh r e (sheetService w) = false →
  values_get e (rangeOf r) = Rejected →
  (now e ≤ now e')%Z →
  let w' := (get r e w).2 in
  fetched r w' (get r e' w').2.
Proof.
  intros Hf Hv Hle w'. apply get_miss. subst w'.
  rewrite (get_rejected_service r e w Hf Hv).
  unfold isFresh in *. destruct (cached r (sheetService w)); [|done].
  apply Z.ltb_ge in Hf. apply Z.ltb_ge. lia.
Qed.

(** Flows cached at 1000, a rejected refresh at 400000, a retry at 400001. *)
Lemma failed_fetch_is_retried_witness :
  let w1 := (get Flows (sheetEnv 1000 flowRows [] []) initialWorld).2 in
  let w2 := (get Flows (offlineEnv 400000) w1).2 in
  fetched Flows w2 (get Flows (sheetEnv 400001 flowRows [] []) w2).2.
Proof.
  exact (failed_fetch_is_retried Flows (offlineEnv 400000)
           (sheetEnv 400001 flowRows [] [])
           (get Flows (sheetEnv 1000 flowRows [] []) initialWorld).2
           eq_refl eq_refl ltac:(vm_compute; discriminate)).
Defined.

(** X8.  The three resources are independent: a [get] of one, whether it
    hits, refreshes or fails, leaves the cache and the time stamp of the
    other two, the cache duration and [GroqService] as they were, and every
    object on the heap keeps its contents. *)
Theorem get_frame (r r' : Resource) (e : Env) (w : World) :
  r' ≠ r →
  let w' := (get r e w).2 in
  cached r' (sheetService w') = cached r' (sheetService w)
  ∧ lastFetch r' (sheetService w') = lastFetch r' (sheetService w)
  ∧ cacheDuration (sheetService w') = cacheDuration (sheetService w)
  ∧ groqService w' = groqService w
  ∧ (∀ l o, heap w !! l = Some o → heap w' !! l = Some o).
Proof.
  intros Hne w'. subst w'.
  destruct r; run.
  - destruct (flowsCache (sheetService w)); simpl;
      [destruct (_ <? _)%Z; simpl|];
      try destruct (values_get e flowsRange); simpl;
      by destruct r'.
  - destruct (promptsCache (sheetService w)); simpl;
      [destruct (_ <? _)%Z; simpl|];
      try destruct (values_get e promptsRange); simpl;
      (destruct r'; try done);
      split_and!; try done; intros l o Hl; by apply lookup_app_l_Some.
  - destruct (scheduledMessagesCache (sheetService w)); simpl;
      [destruct (_ <? _)%Z; simpl|];
      try destruct (values_get e scheduledRange); simpl;
      by destruct r'.
Qed.

(** The flows cached at 1000 are untouched by a fetch of the prompts. *)
Lemma get_frame_witness :
  let w := (get Flows (sheetEnv 1000 flowRows promptRows []) initialWorld).2 in
  let w' := (get Prompts (sheetEnv 2000 flowRows promptRows []) w).2 in
  cached Flows (sheetService w') = cached Flows (sheetService w)
  ∧ lastFetch Flows (sheetService w') = lastFetch Flows (sheetService w)
  ∧ cacheDuration (sheetService w') = cacheDuration (sheetService w)
  ∧ groqService w' = groqService w
  ∧ (∀ l o, heap w !! l = Some o → heap w' !! l = Some o).
Proof.
  exact (get_frame Prompts Flows (sheetEnv 2000 flowRows promptRows [])
           (get Flows (sheetEnv 1000 flowRows promptRows []) initialWorld).2
           ltac:(discriminate)).
Defined.

(** X9.  Any number of reads inside the window cost nothing: with a value
    cached, a run of [get]s whose clock readings are all before the time
    stamp plus the cache duration leaves the world as it is (no call at
    all), and each of them returns the cached value. *)
Theorem reads_within_window (r : Resource) (es : list Env) (w : World)
    (v : Returned) :
  cached r (sheetService w) = Some v →
  Forall (λ e, (now e < lastFetch r (sheetService w)
                         + cacheDuration (sheetService w))%Z) es →
  foldl (λ w e, (get r e w).2) w es = w
  ∧ Forall (λ e, (get r e w).1 = v) es.
Proof.
  intros Hc Hes. induction Hes as [|e es He Hes [IHw IHv]]; simpl; [done|].
  rewrite (get_hit r e w v Hc He). simpl. split; [done|].
  constructor; [|done]. by rewrite (get_hit r e w v Hc He).
Qed.

(** Three reads of the flows cached at 1000, the last one out of order. *)
Lemma reads_within_window_witness :
  let w := (get Flows (sheetEnv 1000 flowRows [] []) initialWorld).2 in
  let es := [sheetEnv 1001 [] [] []; sheetEnv 300999 [] [] [];
             sheetEnv 5 [] [] []] in
  foldl (λ w e, (get Flows e w).2) w es = w
  ∧ Forall (λ e, (get Flows e w).1 = RFlows (List.map parseFlow flowRows)) es.
Proof.
  exact (reads_within_window Flows
           [sheetEnv 1001 [] [] []; sheetEnv 300999 [] [] []; sheetEnv 5 [] [] []]
           (get Flows (sheetEnv 1000 flowRows [] []) initialWorld).2
           (RFlows (List.map parseFlow flowRows)) eq_refl
           ltac:(repeat constructor)).
Defined.

(** X10.  After [invalidateCache] the three caches are [null] and the three
    time stamps 0, so that every getter fetches whatever the clock says;
    invalidating twice is invalidating once; the objects on the heap and
    [this.settings] of [GroqService] are not touched, and no call is
    made. *)
Theorem invalidateCache_effect (w : World) :
  let w' := (invalidateCache w).2 in
  (∀ r e, fetched r w' (get r e w').2)
  ∧ (∀ r, cached r (sheetService w') = None
          ∧ lastFetch r (sheetService w') = 0%Z)
  ∧ (invalidateCache w').2 = w'
  ∧ cacheDuration (sheetService w') = cacheDuration (sheetService w)
  ∧ heap w' = heap w
  ∧ groqService w' = groqService w
  ∧ calls w' = calls w.
Proof.
  intros w'. subst w'. split_and!; try done.
  - intros r e. apply get_miss. by destruct r.
  - by intros [].
Qed.

(** ** Scheduled messages *)

(** X11.  Read after write: when [updateMessageStatus] succeeded, the next
    [getScheduledMessages] whose fetch resolves returns the rows the sheet
    holds then, not the cached ones, and caches them with the time of that
    read. *)
Theorem read_after_status_update (e e' : Env) (rowIndex : N)
    (newStatus : jsstring) (w : World) u values :
  values_update e (statusCell rowIndex) newStatus = Resolved u →
  values_get e' scheduledRange = Resolved values →
  let w1 := (updateMessageStatus e rowIndex newStatus w).2 in
  let fresh := imap parseScheduledMessage (default [] values) in
  (getScheduledMessages e' w1).1 = fresh
  ∧ scheduledMessagesCache (sheetService (getScheduledMessages e' w1).2)
    = Some fresh
  ∧ lastScheduledMessagesFetch (sheetService (getScheduledMessages e' w1).2)
    = now e'.
Proof.
  intros Hu Hv w1 fresh. subst w1 fresh. run. rewrite Hu. simpl. by rewrite Hv.
Qed.

(** One message cached at 1000, its status written at 2000, a read at 2001
    of a sheet that now holds another row. *)
Lemma read_after_status_update_witness :
  let w := (getScheduledMessages
              (sheetEnv 1000 [] [] [[js "2025-01-01"]]) initialWorld).2 in
  let e' := sheetEnv 2001 [] [] [[js "2025-02-02"]] in
  let w1 := (updateMessageStatus (sheetEnv 2000 [] [] []) 2 (js "Enviado") w).2 in
  let fresh := imap parseScheduledMessage [[js "2025-02-02"]] in
  (getScheduledMessages e' w1).1 = fresh
  ∧ scheduledMessagesCache (sheetService (getScheduledMessages e' w1).2)
    = Some fresh
  ∧ lastScheduledMessagesFetch (sheetService (getScheduledMessages e' w1).2)
    = 2001%Z.
Proof.
  exact (read_after_status_update (sheetEnv 2000 [] [] [])
           (sheetEnv 2001 [] [] [[js "2025-02-02"]]) 2 (js "Enviado")
           (getScheduledMessages
              (sheetEnv 1000 [] [] [[js "2025-01-01"]]) initialWorld).2
           tt (Some [[js "2025-02-02"]]) eq_refl eq_refl).
Defined.

Lemma js_inj s t : js s = js t → s = t.
Proof.
  unfold js. intros Heq.
  rewrite <- (string_of_list_ascii_of_string s),
    <- (string_of_list_ascii_of_string t).
  f_equal. revert Heq.
  generalize (list_ascii_of_string s) (list_ascii_of_string t).
  induction l as [|a l IH]; intros [|b l']; simpl; try done.
  intros [= Hab Hl]. f_equal; [|by apply IH].
  by rewrite <- (ascii_N_embedding a), <- (ascii_N_embedding b), Hab.
Qed.

Lemma N_to_uint_nonnil n : N.to_uint n ≠ Nil.
Proof. destruct n; simpl; [done|]. apply DecimalPos.Unsigned.to_uint_nonnil. Qed.

Lemma numberToString_inj a b : numberToString a = numberToString b → a = b.
Proof.
  unfold numberToString. intros Heq%js_inj.
  apply DecimalN.Unsigned.to_uint_inj.
  pose proof (NilZero.usu _ (N_to_uint_nonnil a)) as Ha.
  pose proof (NilZero.usu _ (N_to_uint_nonnil b)) as Hb.
  rewrite Heq in Ha. rewrite Ha in Hb. by injection Hb.
Qed.

(** X12.  [updateMessageStatus] writes different rows to different cells:
    the cell reference built from the row number determines the row. *)
Theorem statusCell_inj (a b : N) : statusCell a = statusCell b ↔ a = b.
Proof.
  split; [|by intros ->]. unfold statusCell.
  intros Heq%app_inv_head. by apply numberToString_inj.
Qed.

Lemma getScheduledMessages_refresh e w values :
  isFresh ScheduledMessages e (sheetService w) = false →
  values_get e scheduledRange = Resolved values →
  (getScheduledMessages e w).1 = imap parseScheduledMessage (default [] values).
Proof.
  unfold isFresh. run. simpl. intros Hf Hv.
  destruct (scheduledMessagesCache (sheetService w)); simpl in *;
    rewrite ?Hf, Hv; done.
Qed.

(** X13.  The messages a fetch returns are the rows of the range, one for
    one and in order; the message at position [i] carries the row number
    [i + 2] (the range starts at row 2 of the sheet) and the status of that
    row's sixth cell; and two messages at different positions have
    different status cells. *)
Theorem scheduled_messages_row_index (e : Env) (w : World) values :
  isFresh ScheduledMessages e (sheetService w) = false →
  values_get e scheduledRange = Resolved values →
  let rows := default [] values in
  let messages := (getScheduledMessages e w).1 in
  length messages = length rows
  ∧ (∀ i m, messages !! i = Some m →
       rowIndex m = N.of_nat i + 2
       ∧ ∃ row, rows !! i = Some row ∧ estado m = cell row 5)
  ∧ (∀ i j m m', messages !! i = Some m → messages !! j = Some m' →
       statusCell (rowIndex m) = statusCell (rowIndex m') → i = j).
Proof.
  intros Hf Hv rows messages. subst messages.
  rewrite (getScheduledMessages_refresh e w values Hf Hv). fold rows.
  assert (∀ i m, imap parseScheduledMessage rows !! i = Some m →
            rowIndex m = N.of_nat i + 2
            ∧ ∃ row, rows !! i = Some row ∧ estado m = cell row 5) as Hidx.
  { intros i m (row & Hrow & ->)%list_lookup_imap_Some.
    split; [done|]. by exists row. }
  split_and!; [apply length_imap|done|].
  intros i j m m' [Hi _]%Hidx [Hj _]%Hidx Hc.
  unfold statusCell in Hc. apply app_inv_head, numberToString_inj in Hc. lia.
Qed.

(** A sheet of two scheduled messages, fetched by a new service. *)
Lemma scheduled_messages_row_index_witness :
  let e := sheetEnv 1000 [] [] [[js "2025-01-01"]; [js "2025-01-02"]] in
  let rows := [[js "2025-01-01"]; [js "2025-01-02"]] in
  let messages := (getScheduledMessages e initialWorld).1 in
  length messages = length rows
  ∧ (∀ i m, messages !! i = Some m →
       rowIndex m = N.of_nat i + 2
       ∧ ∃ row, rows !! i = Some row ∧ estado m = cell row 5)
  ∧ (∀ i j m m', messages !! i = Some m → messages !! j = Some m' →
       statusCell (rowIndex m) = statusCell (rowIndex m') → i = j).
Proof.
  exact (scheduled_messages_row_index
           (sheetEnv 1000 [] [] [[js "2025-01-01"]; [js "2025-01-02"]])
           initialWorld (Some [[js "2025-01-01"]; [js "2025-01-02"]])
           eq_refl eq_refl).
Defined.

(** ** The settings, further *)

Lemma coerce_idem v : coerce (coerce v) = coerce v.
Proof.
  unfold coerce at 2. destruct (isNaN v) eqn:Hv.
  - unfold coerce. by rewrite Hv.
  - unfold coerce, isNaN in *. simpl. by destruct (toNumber v).
Qed.

Lemma coerceSettings_idem (o : Obj) :
  coerceSettings (coerceSettings o) = coerceSettings o.
Proof.
  rewrite !coerceSettings_fmap. apply map_eq. intros key.
  rewrite !lookup_fmap. destruct (o !! key); simpl; [|done].
  by rewrite coerce_idem.
Qed.

(** X14.  Loading the settings again changes nothing: when the object of
    the first [loadSettings] is the one the prompts cache holds and the
    cache is still fresh, a second [loadSettings] makes no call and leaves
    the whole world, the coerced object included, as it is. *)
Theorem loadSettings_twice (e e' : Env) (w : World) :
  let w1 := (loadSettings e w).2 in
  promptsCache (sheetService w1) = settings (groqService w1) →
  isFresh Prompts e' (sheetService w1) = true →
  (loadSettings e' w1).2 = w1.
Proof.
  intros w1 Halias Hfresh.
  destruct (getPrompts_hit e' w1 Hfresh) as (l & Hl & Hhit).
  rewrite loadSettings_unfold, Hhit. cbn [fst snd].
  subst w1. rewrite loadSettings_unfold in *. cbv zeta in *.
  cbn [snd sheetService groqService settings heap calls] in *.
  assert (l = (getPrompts e w).1) as -> by congruence.
  clear Hhit Hl Halias Hfresh. f_equal.
  set (h := heap (getPrompts e w).2). set (l := (getPrompts e w).1).
  destruct (h !! l) as [o|] eqn:Ho.
  - rewrite list_lookup_insert_eq by (by eapply lookup_lt_Some). simpl.
    rewrite coerceSettings_idem. apply list_insert_insert_eq.
  - assert (length h ≤ l)%nat as Hge by (by apply lookup_ge_None).
    by rewrite !(list_insert_ge h l) by done.
Qed.

(** The settings loaded at 1000 and again at 2000. *)
Lemma loadSettings_twice_witness :
  let w1 := (loadSettings (sheetEnv 1000 flowRows promptRows []) initialWorld).2 in
  (loadSettings (sheetEnv 2000 [] [] []) w1).2 = w1.
Proof.
  exact (loadSettings_twice (sheetEnv 1000 flowRows promptRows [])
           (sheetEnv 2000 [] [] []) initialWorld eq_refl eq_refl).
Defined.

(** X15.  [loadSettings] keeps the keys of the object [getPrompts] returned
    and leaves no numeric text behind: afterwards a value that is a string
    is one the conversion to a number rejects, unchanged from before, and a
    value that is a number is not [NaN] unless it was [NaN] already. *)
Theorem loaded_settings_are_coerced (e : Env) (w : World) :
  let l := (getPrompts e w).1 in
  let w1 := (getPrompts e w).2 in
  let w2 := (loadSettings e w).2 in
  ∀ raw, heap w1 !! l = Some raw →
    ∃ loaded, heap w2 !! l = Some loaded
      ∧ dom loaded = dom raw
      ∧ ∀ key v, loaded !! key = Some v →
          match v with
          | VStr s => stringToNumber s = NaN ∧ raw !! key = Some (VStr s)
          | VNum n => n ≠ NaN ∨ raw !! key = Some (VNum NaN)
          end.
Proof.
  intros l w1 w2 raw Hraw. subst w2. rewrite loadSettings_unfold. fold l w1.
  cbn [snd heap]. rewrite Hraw. simpl.
  exists (coerceSettings raw). split_and!.
  - apply list_lookup_insert_eq. by eapply lookup_lt_Some.
  - rewrite coerceSettings_fmap. apply dom_fmap_L.
  - intros key v. rewrite coerceSettings_fmap, lookup_fmap.
    destruct (raw !! key) as [v0|]; simpl; [|done]. intros [= <-].
    unfold coerce, isNaN. destruct v0 as [s|n]; simpl.
    + destruct (stringToNumber s) eqn:Hs; simpl; [done|by left..].
    + destruct n; simpl; [by right|by left..].
Qed.

(** The prompts of the example, loaded by a new process. *)
Lemma loaded_settings_are_coerced_witness :
  let e := sheetEnv 1000 flowRows promptRows [] in
  let l := (getPrompts e initialWorld).1 in
  let w2 := (loadSettings e initialWorld).2 in
  let raw := parsePrompts promptRows in
  ∃ loaded, heap w2 !! l = Some loaded
    ∧ dom loaded = dom raw
    ∧ ∀ key v, loaded !! key = Some v →
        match v with
        | VStr s => stringToNumber s = NaN ∧ raw !! key = Some (VStr s)
        | VNum n => n ≠ NaN ∨ raw !! key = Some (VNum NaN)
        end.
Proof.
  exact (loaded_settings_are_coerced (sheetEnv 1000 flowRows promptRows [])
           initialWorld (parsePrompts promptRows) eq_refl).
Defined.

(** ** The AI path, further *)

(** The outcomes of the calls to the chat history, case by case. *)
Ltac chat_calls :=
  match goal with
  | |- context [match ?phoneNumber with Some _ => _ | None => _ end] =>
      destruct phoneNumber as [[|?c ?p]|]; simpl;
      repeat match goal with
      | |- context [match getContextForAI ?e ?p with _ => _ end] =>
          destruct (getContextForAI e p) eqn:?; simpl
      | |- context [match saveMessage ?e ?p ?r ?c with _ => _ end] =>
          destruct (saveMessage e p r c) eqn:?; simpl
      end
  end.

(** After the settings are there, [getResponse] only talks to the chat
    history. *)
Lemma getResponse_frame e userInput phoneNumber w :
  let w0 := withSettings e w in
  let w' := (getResponse e userInput phoneNumber w).2 in
  sheetService w' = sheetService w0
  ∧ groqService w' = groqService w0
  ∧ heap w' = heap w0
  ∧ ∃ made, calls w' = calls w0 ++ made
            ∧ made `prefix_of` chatProtocol userInput phoneNumber.
Proof.
  unfold withSettings, getResponse, mbind, M_bind, mret, M_ret, this_groq,
    load, call.
  destruct (settings (groqService w)).
  - cbv beta iota. chat_calls; (split_and!; [done..|]);
      first [ exists []; split; [by rewrite app_nil_r|by eexists]
            | eexists [_]; split; [done|by eexists]
            | eexists [_; _]; split; [by rewrite <- ?app_assoc|by eexists]
            | eexists [_; _; _]; split; [by rewrite <- ?app_assoc|by eexists] ].
  - rewrite loadSettings_unfold. cbv zeta beta iota.
    cbn [snd heap calls sheetService groqService settings].
    chat_calls; (split_and!; [done..|]);
      first [ exists []; split; [by rewrite app_nil_r|by eexists]
            | eexists [_]; split; [done|by eexists]
            | eexists [_; _]; split; [by rewrite <- ?app_assoc|by eexists]
            | eexists [_; _; _]; split; [by rewrite <- ?app_assoc|by eexists] ].
Qed.

Lemma chatProtocol_no_sheets userInput phoneNumber made :
  made `prefix_of` chatProtocol userInput phoneNumber →
  forallb (λ c, negb (isSheetsCall c)) made = true.
Proof.
  intros [k Hk]. apply forallb_forall. intros c Hc.
  assert (In c (chatProtocol userInput phoneNumber)) as Hin.
  { rewrite Hk. apply in_or_app. by left. }
  destruct phoneNumber as [[|a p]|]; simpl in Hin; try done.
  destruct Hin as [<-|[<-|[<-|[]]]]; done.
Qed.

(** X16.  The settings are read from the sheet at most once: when
    [this.settings] is set, [getResponse] makes no call to the Sheets API,
    whatever the clock says, and leaves the sheet service, the heap and
    [this.settings] as they are. *)
Theorem settings_loaded_once (e : Env) (userInput : jsstring)
    (phoneNumber : option jsstring) (w : World) (l : loc) :
  settings (groqService w) = Some l →
  let w' := (getResponse e userInput phoneNumber w).2 in
  sheetService w' = sheetService w
  ∧ groqService w' = groqService w
  ∧ heap w' = heap w
  ∧ ∃ made, calls w' = calls w ++ made
            ∧ forallb (λ c, negb (isSheetsCall c)) made = true.
Proof.
  intros Hs w'.
  destruct (getResponse_frame e userInput phoneNumber w)
    as (H1 & H2 & H3 & made & H4 & H5).
  unfold withSettings in *. rewrite Hs in *. fold w' in H1, H2, H3, H4.
  split_and!; try done. exists made. split; [done|].
  by eapply chatProtocol_no_sheets.
Qed.

(** Settings loaded at 1000, a response asked for fifteen minutes later. *)
Lemma settings_loaded_once_witness :
  let w := (loadSettings (sheetEnv 1000 flowRows promptRows []) initialWorld).2 in
  let w' := (getResponse (sheetEnv 900000 [] [] []) (js "hola")
               (Some (js "50212345678")) w).2 in
  sheetService w' = sheetService w
  ∧ groqService w' = groqService w
  ∧ heap w' = heap w
  ∧ ∃ made, calls w' = calls w ++ made
            ∧ forallb (λ c, negb (isSheetsCall c)) made = true.
Proof.
  exact (settings_loaded_once (sheetEnv 900000 [] [] []) (js "hola")
           (Some (js "50212345678"))
           (loadSettings (sheetEnv 1000 flowRows promptRows []) initialWorld).2
           0%nat eq_refl).
Defined.

Lemma getPrompts_rejected e w :
  isFresh Prompts e (sheetService w) = false →
  values_get e promptsRange = Rejected →
  getPrompts e w =
    (length (heap w),
     {| sheetService := sheetService w; groqService := groqService w;
        heap := heap w ++ [∅];
        calls := calls w ++ [SheetsValuesGet promptsRange] |}).
Proof.
  unfold isFresh. run. simpl. intros Hf Hv.
  destruct (promptsCache (sheetService w)); simpl in *; rewrite ?Hf, Hv; done.
Qed.

(** X17.  A first load that fails is kept for good: when [this.settings] is
    [null] and the fetch of the prompts is rejected, [getResponse] leaves
    [this.settings] pointing to a new empty object, and no later
    [getResponse] changes the sheet service, the heap or [this.settings]:
    the prompts are not asked for again. *)
Theorem failed_settings_load_sticks (e : Env) (userInput : jsstring)
    (phoneNumber : option jsstring) (w : World) :
  settings (groqService w) = None →
  isFresh Prompts e (sheetService w) = false →
  values_get e promptsRange = Rejected →
  let w' := (getResponse e userInput phoneNumber w).2 in
  settings (groqService w') = Some (length (heap w))
  ∧ heap w' = heap w ++ [∅]
  ∧ sheetService w' = sheetService w
  ∧ ∀ e' userInput' phoneNumber',
      let w'' := (getResponse e' userInput' phoneNumber' w').2 in
      groqService w'' = groqService w'
      ∧ heap w'' = heap w'
      ∧ sheetService w'' = sheetService w'.
Proof.
  intros Hs Hf Hv w'.
  destruct (getResponse_frame e userInput phoneNumber w)
    as (H1 & H2 & H3 & _).
  fold w' in H1, H2, H3. unfold withSettings in *. rewrite Hs in *.
  rewrite loadSettings_unfold, (getPrompts_rejected e w Hf Hv) in *.
  cbv zeta in *. cbn [fst snd sheetService groqService heap settings] in *.
  assert (heap w' = heap w ++ [∅]) as Hh.
  { rewrite H3, (list_lookup_middle (heap w) [] ∅ _ eq_refl). simpl.
    rewrite coerceSettings_fmap, fmap_empty.
    apply list_insert_id, list_lookup_middle. done. }
  split_and!; [by rewrite H2|done|done|].
  intros e' userInput' phoneNumber'.
  destruct (getResponse_frame e' userInput' phoneNumber' w')
    as (H1' & H2' & H3' & _).
  unfold withSettings in *. rewrite H2 in *. simpl in *.
  split_and!; [by rewrite H2', H2|done|done].
Qed.

(** A new process that cannot reach the sheet when the first message
    comes. *)
Lemma failed_settings_load_sticks_witness :
  let w' := (getResponse (offlineEnv 1000) (js "hola") None initialWorld).2 in
  settings (groqService w') = Some (length (heap initialWorld))
  ∧ heap w' = heap initialWorld ++ [∅]
  ∧ sheetService w' = sheetService initialWorld
  ∧ ∀ e' userInput' phoneNumber',
      let w'' := (getResponse e' userInput' phoneNumber' w').2 in
      groqService w'' = groqService w'
      ∧ heap w'' = heap w'
      ∧ sheetService w'' = sheetService w'.
Proof.
  exact (failed_settings_load_sticks (offlineEnv 1000) (js "hola") None
           initialWorld eq_refl eq_refl eq_refl).
Defined.

(** X18.  What [getResponse] says to the chat history, after the settings
    are there: nothing without a phone number; with one, the context is
    asked for first, the user's message is saved only when the context came
    back, and the assistant's message only when the user's was saved.  The
    calls are made in that order, a rejected one ends them, and the text
    saved for the assistant is always the empty string. *)
Theorem chat_history_protocol (e : Env) (userInput : jsstring)
    (phoneNumber : option jsstring) (w : World) :
  let w0 := withSettings e w in
  let w' := (getResponse e userInput phoneNumber w).2 in
  ∃ made,
    calls w' = calls w0 ++ made
    ∧ made `prefix_of` chatProtocol userInput phoneNumber
    ∧ (∀ p role content, In (ChatSaveMessage p role content) made →
         role = js "assistant" → content = [])
    ∧ (∀ p, phoneNumber = Some p → p ≠ [] →
         match getContextForAI e p with
         | Rejected => made = [ChatGetContextForAI p]
         | Resolved _ =>
             match saveMessage e p (js "user") userInput with
             | Resolved _ => made = chatProtocol userInput phoneNumber
             | Rejected => made = [ChatGetContextForAI p;
                                   ChatSaveMessage p (js "user") userInput]
             end
         end).
Proof.
  intros w0 w'.
  assert (calls w' = calls w0 ++
    match phoneNumber with
    | Some (c :: p) =>
        ChatGetContextForAI (c :: p) ::
        match getContextForAI e (c :: p) with
        | Rejected => []
        | Resolved _ =>
            ChatSaveMessage (c :: p) (js "user") userInput ::
            match saveMessage e (c :: p) (js "user") userInput with
            | Rejected => []
            | Resolved _ => [ChatSaveMessage (c :: p) (js "assistant") []]
            end
        end
    | _ => []
    end) as Hcalls.
  { subst w0 w'.
    unfold withSettings, getResponse, mbind, M_bind, mret, M_ret, this_groq,
      load, call.
    destruct (settings (groqService w)).
    - cbv beta iota. chat_calls; rewrite <- ?app_assoc, ?app_nil_r; done.
    - rewrite loadSettings_unfold. cbv zeta beta iota.
      cbn [snd heap calls sheetService groqService settings].
      chat_calls; rewrite <- ?app_assoc, ?app_nil_r; done. }
  eexists. split; [exact Hcalls|]. clear Hcalls.
  destruct phoneNumber as [[|c p]|]; simpl.
  - split_and!; [by eexists|by intros ? ? ? []|by intros ? [= <-]].
  - split_and!.
    + destruct (getContextForAI e (c :: p)); [by eexists|].
      destruct (saveMessage e (c :: p) (js "user") userInput); by eexists.
    + intros p' role content Hin Hrole. subst role.
      destruct (getContextForAI e (c :: p)); simpl in Hin;
        [|destruct (saveMessage e (c :: p) (js "user") userInput); simpl in Hin];
        repeat (destruct Hin as [Hin|Hin]); try done;
        assert (js "user" ≠ js "assistant") by (vm_compute; discriminate);
        congruence.
    + intros p' [= <-] _.
      destruct (getContextForAI e (c :: p)); [done|].
      by destruct (saveMessage e (c :: p) (js "user") userInput).
  - split_and!; [by eexists|by intros ? ? ? []|done].
Qed.

(** ** What every run keeps *)

Lemma cell_nonempty row i : cell row i ≠ Some [].
Proof. unfold cell. by destruct (row !! i) as [[|c s]|]. Qed.

Lemma parseFlow_ok row : flowOk (parseFlow row).
Proof. repeat split; apply cell_nonempty. Qed.

Lemma lastBinding_nonempty key rows value :
  lastBinding key rows = Some value → key ≠ [] ∧ value ≠ [].
Proof.
  induction rows as [|row rows IH]; simpl; [done|].
  destruct (lastBinding key rows); [done|].
  pose proof (cell_nonempty row 1) as H1. pose proof (cell_nonempty row 2) as H2.
  destruct (cell row 1) as [k|], (cell row 2) as [v|]; try done.
  destruct (decide (k = key)) as [<-|]; [|done]. intros [= <-].
  split; congruence.
Qed.

Lemma parsePrompts_ok rows : objOk (parsePrompts rows).
Proof.
  split_and!.
  - rewrite parsePrompts_entry. by destruct (decide _).
  - rewrite parsePrompts_entry. destruct (decide _); [done|].
    destruct (lastBinding [] rows) eqn:Hl.
    + by apply lastBinding_nonempty in Hl as [? _].
    + by destruct (decide _).
  - intros key. rewrite parsePrompts_entry.
    destruct (decide (key = js "__proto__")); [done|].
    destruct (lastBinding key rows) as [v|] eqn:Hl.
    + apply lastBinding_nonempty in Hl as [_ Hv]. congruence.
    + destruct (decide (key = js "system_prompt")); [|done].
      destruct rows as [|row0 rows']; simpl; [done|].
      pose proof (cell_nonempty row0 0).
      destruct (cell row0 0); simpl; congruence.
Qed.

Lemma empty_ok : objOk ∅.
Proof. by split_and!. Qed.

Lemma coerce_VStr v s : coerce v = VStr s → v = VStr s.
Proof. unfold coerce. by destruct (isNaN v). Qed.

Lemma coerceSettings_ok o : objOk o → objOk (coerceSettings o).
Proof.
  intros (Hp & He & Hv). rewrite coerceSettings_fmap. split_and!.
  - by rewrite lookup_fmap, Hp.
  - by rewrite lookup_fmap, He.
  - intros key. rewrite lookup_fmap. destruct (o !! key) as [v|] eqn:Hk; [|done].
    simpl. intros [= Hc%coerce_VStr]. subst v. by apply (Hv key).
Qed.

Lemma wellFormed_frame w w' :
  sheetService w' = sheetService w →
  groqService w' = groqService w →
  heap w' = heap w →
  wellFormed w → wellFormed w'.
Proof. unfold wellFormed. by intros -> -> ->. Qed.

Lemma wellFormed_initial : wellFormed initialWorld.
Proof. split_and!; try done. Qed.

Lemma getFlows_wf e w : wellFormed w → wellFormed (getFlows e w).2.
Proof.
  intros Hwf. pose proof Hwf as (Hd & Hp & Hs & Hf & Hm & Hh). run.
  destruct (flowsCache (sheetService w)); simpl;
    [destruct (_ <? _)%Z; simpl; [done|]|];
    (destruct (values_get e flowsRange); simpl;
     [by eapply wellFormed_frame|]);
    (split_and!; try done; simpl; intros flows [= <-];
     apply Forall_forall; intros f (row & -> & _)%list_elem_of_fmap;
     apply parseFlow_ok).
Qed.

Lemma getScheduledMessages_wf e w :
  wellFormed w → wellFormed (getScheduledMessages e w).2.
Proof.
  intros Hwf. pose proof Hwf as (Hd & Hp & Hs & Hf & Hm & Hh). run.
  destruct (scheduledMessagesCache (sheetService w)); simpl;
    [destruct (_ <? _)%Z; simpl; [done|]|];
    (destruct (values_get e scheduledRange); simpl;
     [by eapply wellFormed_frame|]);
    (split_and!; try done; simpl; intros ms [= <-] i m;
     by intros (row & _ & ->)%list_lookup_imap_Some).
Qed.

Lemma wellFormed_alloc w o s :
  wellFormed w → objOk o →
  cacheDuration s = cacheDuration (sheetService w) →
  flowsCache s = flowsCache (sheetService w) →
  scheduledMessagesCache s = scheduledMessagesCache (sheetService w) →
  (promptsCache s = promptsCache (sheetService w)
   ∨ promptsCache s = Some (length (heap w))) →
  ∀ c, wellFormed {| sheetService := s; groqService := groqService w;
                     heap := heap w ++ [o]; calls := c |}.
Proof.
  intros (Hd & Hp & Hs & Hf & Hm & Hh) Ho Ed Ef Em Ep c.
  split_and!; simpl.
  - by rewrite Ed.
  - intros l Hl. destruct Ep as [Ep|Ep]; rewrite Ep in Hl.
    + destruct (Hp l Hl) as [x Hx]. exists x. by apply lookup_app_l_Some.
    + injection Hl as <-. exists o. by apply list_lookup_middle.
  - intros l Hl. destruct (Hs l Hl) as [x Hx]. exists x.
    by apply lookup_app_l_Some.
  - by rewrite Ef.
  - by rewrite Em.
  - apply Forall_app. split; [done|]. by constructor.
Qed.

Lemma getPrompts_wf e w :
  wellFormed w →
  wellFormed (getPrompts e w).2
  ∧ is_Some (heap (getPrompts e w).2 !! (getPrompts e w).1).
Proof.
  intros Hwf. pose proof Hwf as (Hd & Hp & Hs & Hf & Hm & Hh). run.
  destruct (promptsCache (sheetService w)) as [l|] eqn:Hc; simpl;
    [destruct (_ <? _)%Z; simpl; [by split; [|apply Hp]|]|];
    (destruct (values_get e promptsRange); simpl;
     (split; [|eexists; by apply list_lookup_middle]);
     apply wellFormed_alloc; simpl; auto using empty_ok, parsePrompts_ok).
Qed.

Lemma loadSettings_wf e w : wellFormed w → wellFormed (loadSettings e w).2.
Proof.
  intros Hwf. rewrite loadSettings_unfold. cbv zeta. cbn [snd].
  destruct (getPrompts_wf e w Hwf) as ((Hd & Hp & Hs & Hf & Hm & Hh) & [o Ho]).
  set (w1 := (getPrompts e w).2) in *. set (l := (getPrompts e w).1) in *.
  assert (l < length (heap w1))%nat as Hlt by (by eapply lookup_lt_Some).
  split_and!; simpl; try done.
  - intros l' Hl'. destruct (Hp l' Hl') as [x Hx].
    apply lookup_lt_is_Some. rewrite length_insert. by eapply lookup_lt_Some.
  - intros l' [= <-]. apply lookup_lt_is_Some. by rewrite length_insert.
  - rewrite Ho. simpl. apply Forall_insert; [done|].
    apply coerceSettings_ok. eapply Forall_lookup_1; done.
Qed.

Lemma withSettings_wf e w : wellFormed w → wellFormed (withSettings e w).
Proof.
  unfold withSettings. destruct (settings (groqService w)); [done|].
  apply loadSettings_wf.
Qed.

Section Invariant.
Context `{B : StringBuiltins}.

Lemma exec_wf op e w : wellFormed w → wellFormed (exec op e w).
Proof.
  intros Hwf.
  destruct op as [| | |row status| |userMessage| |userInput phoneNumber]; simpl.
  - by apply getFlows_wf.
  - by apply getPrompts_wf.
  - by apply getScheduledMessages_wf.
  - pose proof Hwf as (Hd & Hp & Hs & Hf & Hm & Hh). run.
    destruct (values_update e (statusCell row) status); simpl;
      [by eapply wellFormed_frame|]. split_and!; done.
  - pose proof Hwf as (Hd & Hp & Hs & Hf & Hm & Hh). split_and!; done.
  - rewrite findFlowAnswer_matchFlows. by apply getFlows_wf.
  - by apply loadSettings_wf.
  - destruct (getResponse_frame e userInput phoneNumber w)
      as (H1 & H2 & H3 & _).
    eapply wellFormed_frame; [exact H1|exact H2|exact H3|].
    by apply withSettings_wf.
Qed.

(** X19.  Whatever operations are run from the start of the process, in
    whatever order and against whatever answers of the outside: the cache
    duration stays the five minutes of the constructor; the prompts cache
    and [this.settings] always point to an object that is there; no cached
    flow has an empty string in a field; the cached scheduled message at
    position [i] has row number [i + 2]; and no settings object has an
    entry under [__proto__] or the empty key, or an entry that is the empty
    string. *)
Theorem reachable_worlds_are_well_formed (steps : list (Op * Env)) :
  wellFormed (runOps steps initialWorld).
Proof.
  unfold runOps. generalize wellFormed_initial. generalize initialWorld.
  induction steps as [|[op e] steps IH]; intros w Hwf; simpl; [done|].
  apply IH. by apply exec_wf.
Qed.
End Invariant.
